(** * btc-ledger-wallet: the Ledger-backed Bitcoin wallet provider

    A shallow embedding of [packages/btc-ledger-wallet/src/wallet.ts]
    (class [BitcoinLedgerProvider]) and the properties of its address
    scanner, coin selector and transaction assembler.

    Conventions of the embedding.
    - A JavaScript number is a [num]: an integer or [NaN].  Amounts are
      satoshi counts, which are exact in a double; fractions and infinities
      are outside the model.  [Num z] stands for the double nearest to [z],
      which is [z] itself up to 2^53 in magnitude.  Where the code hands a
      number to bignumber.js without a bound on its size ([getAmountBuffer],
      [getBalance]), the library reads the decimal text of the double and
      [toNumber] rounds back to a double: both are modelled
      ([BigNumber_from_number], [BigNumber_toNumber]).
    - Values whose TypeScript type is [any] (the payment outputs, the
      metadata, what the coin selection library returns) are [jsval]s and go
      through the language's own coercions ([ToBoolean], [ToString],
      [ToNumber], property lookup).
    - Instances of the [Address] class and the provider's unspent outputs
      are records.
    - An [async] method is a computation in [M]: it returns or throws, and
      it logs the calls made to the collaborators whose arguments the
      properties below talk about.
    - The collaborators (provider, signing device, bitcoinjs-lib,
      coinselect) are fields of [externals]: total functions of their
      arguments.  Their own failures propagate unchanged through every
      method and are not modelled. *)

From Stdlib Require Import ZArith List Bool Lia.
From Stdlib Require Import Strings.String Strings.Ascii Numbers.DecimalString.
Import ListNotations.

Open Scope string_scope.
Open Scope Z_scope.

(* ================================================================== *)
(** ** JavaScript values and coercions *)
(* ================================================================== *)

Module JS.

#[local] Set Warnings "-register-all".

(** Numbers: the integers and NaN. *)
Inductive num : Type :=
| NaN
| Num (z : Z).

(** Values of type [any]. An object is its list of own properties, most
    recently written first. *)
Inductive jsval : Type :=
| JUndefined
| JNull
| JBool (b : bool)
| JNumber (n : num)
| JString (s : string)
| JObject (props : list (string * jsval))
| JArray (elems : list jsval).

(** [a + b] and [a - b] on numbers. *)
Definition num_add (a b : num) : num :=
  match a, b with
  | Num x, Num y => Num (x + y)
  | _, _ => NaN
  end.

Definition num_sub (a b : num) : num :=
  match a, b with
  | Num x, Num y => Num (x - y)
  | _, _ => NaN
  end.

(** The Number value for an integer: the nearest double, which has 53
    significant bits, a tie going to the even significand. It is the
    integer itself up to 2^53 in magnitude. The overflow to Infinity, from
    2^1024 on, is outside the model. *)
Definition Number_value (z : Z) : Z :=
  let a := Z.abs z in
  let e := Z.max 0 (Z.log2 a - 52) in
  let q := a / 2 ^ e in
  let r := a mod 2 ^ e in
  let q := if 2 * r <? 2 ^ e then q
           else if 2 ^ e <? 2 * r then q + 1
           else if Z.even q then q else q + 1 in
  Z.sgn z * (q * 2 ^ e).

(** The integer that the text [String(v)] of an integer-valued double
    [v >= 0] denotes: the digits are the fewest that read back as [v], so
    the text is the multiple of the largest power of ten that does; of two
    such multiples it is the closer to [v], and the one with the even last
    digit when they are as close. [zeros] bounds the power of ten. *)
Fixpoint shortest_decimal (v : Z) (zeros : nat) : Z :=
  match zeros with
  | O => v
  | S k =>
      let u := 10 ^ Z.of_nat zeros in
      let below := v / u * u in
      let above := below + u in
      match Number_value below =? v, Number_value above =? v with
      | true, true =>
          if v - below <? above - v then below
          else if above - v <? v - below then above
          else if Z.even (v / u) then below else above
      | true, false => below
      | false, true => above
      | false, false => shortest_decimal v k
      end
  end.

(** The integer that [String(n)] denotes for the number [Num z]. *)
Definition Number_text (z : Z) : Z :=
  let v := Z.abs (Number_value z) in
  Z.sgn z * shortest_decimal v (Z.to_nat (Z.log2 v)).

(** [new BigNumber(n)] for a number [n]: bignumber.js reads a number
    through its text [String(n)], so its value is the decimal that the text
    denotes, not the double. The result is an exact integer (or NaN). *)
Definition BigNumber_from_number (n : num) : num :=
  match n with
  | NaN => NaN
  | Num z => Num (Number_text z)
  end.

(** [x.toNumber()] for a BigNumber [x]: the double nearest to it. *)
Definition BigNumber_toNumber (x : num) : num :=
  match x with
  | NaN => NaN
  | Num z => Num (Number_value z)
  end.

(** ToBoolean: the falsy values are undefined, null, false, 0, NaN and
    the empty string. *)
Definition truthy (v : jsval) : bool :=
  match v with
  | JUndefined | JNull => false
  | JBool b => b
  | JNumber NaN => false
  | JNumber (Num z) => negb (z =? 0)
  | JString s => negb (s =? "")%string
  | JObject _ | JArray _ => true
  end.

Definition num_to_string (n : num) : string :=
  match n with
  | NaN => "NaN"
  | Num z => NilZero.string_of_int (Z.to_int z)
  end.

(** ToString. An array is its elements joined by commas, with undefined and
    null elements printed as the empty string; a plain object prints as
    "[object Object]". *)
Fixpoint ToString (v : jsval) : string :=
  match v with
  | JUndefined => "undefined"
  | JNull => "null"
  | JBool true => "true"
  | JBool false => "false"
  | JNumber n => num_to_string n
  | JString s => s
  | JObject _ => "[object Object]"
  | JArray l =>
      let elem (x : jsval) : string :=
        match x with
        | JUndefined | JNull => ""
        | _ => ToString x
        end in
      (fix join (l : list jsval) : string :=
         match l with
         | [] => ""
         | [x] => elem x
         | x :: (_ :: _) as tl => elem x ++ "," ++ join tl
         end) l
  end.

Definition digitVal (c : ascii) : option Z :=
  let n := Z.of_nat (nat_of_ascii c) in
  if (48 <=? n) && (n <=? 57) then Some (n - 48) else None.

Fixpoint parseDigits (s : string) (acc : Z) : option Z :=
  match s with
  | EmptyString => Some acc
  | String c r =>
      match digitVal c with
      | Some d => parseDigits r (10 * acc + d)
      | None => None
      end
  end.

(** The text of a number: a signed run of decimal digits. Text that is no
    numeric literal reads as NaN; the other literals of the language
    (fractions, exponents, radix prefixes, surrounding white space) are
    outside the model. *)
Definition parseInteger (s : string) : num :=
  let unsigned (r : string) : num :=
    match r with
    | EmptyString => NaN
    | _ => match parseDigits r 0 with Some z => Num z | None => NaN end
    end in
  match s with
  | String "-" r => match unsigned r with Num z => Num (- z) | NaN => NaN end
  | String "+" r => unsigned r
  | _ => unsigned s
  end.

(** StringToNumber: the empty string is 0. *)
Definition StringToNumber (s : string) : num :=
  match s with
  | EmptyString => Num 0
  | _ => parseInteger s
  end.

(** [Number(v)]: ToNumber, objects and arrays going through ToString. *)
Definition ToNumber (v : jsval) : num :=
  match v with
  | JUndefined => NaN
  | JNull => Num 0
  | JBool b => Num (if b then 1 else 0)
  | JNumber n => n
  | JString s => StringToNumber s
  | JObject _ | JArray _ => StringToNumber (ToString v)
  end.

(** [new BigNumber(v).toNumber()]: a number is taken as it is, anything
    else is converted to a string and parsed; the empty string is no
    number for bignumber.js. *)
Definition BigNumber (v : jsval) : num :=
  match v with
  | JNumber n => n
  | _ => parseInteger (ToString v)
  end.

Fixpoint lookup (k : string) (props : list (string * jsval)) : option jsval :=
  match props with
  | [] => None
  | (k', v) :: r => if (k =? k')%string then Some v else lookup k r
  end.

(** [v.k] for a property name [k] of the source: an own property of an
    object, [length] of an array or a string, undefined otherwise. *)
Definition get_prop (v : jsval) (k : string) : jsval :=
  match v with
  | JObject props => match lookup k props with Some x => x | None => JUndefined end
  | JArray l => if (k =? "length")%string then JNumber (Num (Z.of_nat (List.length l))) else JUndefined
  | JString s => if (k =? "length")%string then JNumber (Num (Z.of_nat (String.length s))) else JUndefined
  | _ => JUndefined
  end.

(** [v[0]]. *)
Definition get_first (v : jsval) : jsval :=
  match v with
  | JArray (x :: _) => x
  | JString (String c _) => JString (String c EmptyString)
  | JObject props => match lookup "0" props with Some x => x | None => JUndefined end
  | _ => JUndefined
  end.

(** [o.k = x] on an object. *)
Definition set_prop (props : list (string * jsval)) (k : string) (x : jsval)
  : list (string * jsval) :=
  (k, x) :: props.

(** [v !== s] for a string constant [s]. *)
Definition strict_neq_string (v : jsval) (s : string) : bool :=
  match v with
  | JString t => negb (t =? s)%string
  | _ => true
  end.

End JS.
Import JS.

(* ================================================================== *)
(** ** Strings, hexadecimal text and buffers *)
(* ================================================================== *)

(** A [Buffer] is its list of bytes, each in [0, 256). *)
Definition Buffer : Type := list Z.

Definition hexDigit (d : Z) : ascii :=
  nth (Z.to_nat d)
    ["0"; "1"; "2"; "3"; "4"; "5"; "6"; "7"; "8"; "9";
     "a"; "b"; "c"; "d"; "e"; "f"]%char "0"%char.

(** The number of base-16 digits of a non-negative integer (one for 0). *)
Definition hexLength (z : Z) : nat :=
  if z =? 0 then 1%nat else S (Z.to_nat (Z.log2 z / 4)).

(** The [k] low base-16 digits of [z], most significant first. *)
Definition hexDigits (k : nat) (z : Z) : list ascii :=
  map (fun i => hexDigit ((z / 16 ^ Z.of_nat i) mod 16)) (rev (seq 0 k)).

(** [x.toString(16)] for a BigNumber [x]. *)
Definition toString16 (n : num) : string :=
  match n with
  | NaN => "NaN"
  | Num z =>
      if z <? 0
      then "-" ++ string_of_list_ascii (hexDigits (hexLength (- z)) (- z))
      else string_of_list_ascii (hexDigits (hexLength z) z)
  end.

Fixpoint repeat_char (c : ascii) (n : nat) : string :=
  match n with
  | O => EmptyString
  | S m => String c (repeat_char c m)
  end.

(** [s.padStart(len, c)]: [s] itself when it already has [len] characters
    or more. *)
Definition padStart (s : string) (len : Z) (c : ascii) : string :=
  repeat_char c (Z.to_nat (len - Z.of_nat (String.length s))) ++ s.

Definition hexVal (c : ascii) : option Z :=
  let n := Z.of_nat (nat_of_ascii c) in
  if (48 <=? n) && (n <=? 57) then Some (n - 48)
  else if (97 <=? n) && (n <=? 102) then Some (n - 87)
  else if (65 <=? n) && (n <=? 70) then Some (n - 55)
  else None.

(** [Buffer.from(s, 'hex')]: one byte per pair of hexadecimal digits, up to
    the first pair that is not one; a last single character is dropped. *)
Fixpoint Buffer_from_hex (s : string) : Buffer :=
  match s with
  | String a (String b rest) =>
      match hexVal a, hexVal b with
      | Some x, Some y => (16 * x + y) :: Buffer_from_hex rest
      | _, _ => []
      end
  | _ => []
  end.

(** [Buffer.from(s, 'utf8')] for text in the ASCII range. *)
Definition Buffer_from_utf8 (s : string) : Buffer :=
  map (fun c => Z.of_nat (nat_of_ascii c)) (list_ascii_of_string s).

(** [padHexStart(hex, length)] (wallet.ts, lines 264-269). [%] is the
    remainder that takes the sign of the dividend. *)
Definition padHexStart (hex : string) (length : Z) : string :=
  let len := if length =? 0 then Z.of_nat (String.length hex) else length in
  let len := len + Z.rem len 2 in
  padStart hex len "0".

(** [Math.round] on a [num], which holds no fraction. *)
Definition Math_round (n : num) : num := n.

(** [getAmountBuffer(amount)] (wallet.ts, lines 271-277). *)
Definition getAmountBuffer (amount : num) : Buffer :=
  let hexAmount := toString16 (BigNumber_from_number (Math_round amount)) in
  let hexAmount := padHexStart hexAmount 16 in
  let valueBuffer := Buffer_from_hex hexAmount in
  rev valueBuffer.

(** The [n]-byte little-endian encoding of [z]. *)
Definition little_endian (n : nat) (z : Z) : list Z :=
  map (fun i => (z / 256 ^ Z.of_nat i) mod 256) (seq 0 n).

(* ================================================================== *)
(** ** Data of the wallet *)
(* ================================================================== *)

(** Modelled from the spec: the [Address] class of @jelly-swap/btc-wallet,
    which is imported by wallet.ts and is not among the sources. The spec's
    WalletAddress is "{address string, derivation path, public key bytes,
    index, is-change flag}"; the fields are those [getLedgerAddresses]
    passes to [new Address]. The address is absent when
    [getAddressFromPublicKey] returned undefined. *)
Record Address : Type := {
  a_address : option string;
  a_derivationPath : string;
  a_publicKey : Buffer;
  a_index : Z;
  a_change : bool
}.

(** Modelled from the spec: [Address.equals] of @jelly-swap/btc-wallet,
    not among the sources: "Equality is by address-string value, not
    identity." *)
Definition Address_equals (a : Address) (other : string) : bool :=
  match a_address a with
  | Some s => (s =? other)%string
  | None => false
  end.

(** An unspent output as the provider reports it and, once
    [getInputsForAmount] has rewritten it, as coin selection sees it.
    [u_amount] is a quantity of BTC with eight decimals, held as the integer
    it makes in satoshi, so that [new BigNumber(amount).times(1e8)] is that
    integer. [u_derivationPath] is absent on what the provider reports. *)
Record UTXO : Type := {
  u_txid : string;
  u_vout : Z;
  u_address : string;
  u_amount : Z;
  u_value : num;
  u_derivationPath : option string
}.

(** What [unusedAddress[key]] holds. *)
Inductive slot : Type :=
| Null
| Undefined
| Addr (a : Address).

Record unusedAddress_t : Type := {
  ua_change : slot;
  ua_nonChange : slot
}.

(** What coinselect returns: [{inputs, outputs, fee}], [inputs] and
    [outputs] undefined when it found no selection. *)
Record selection : Type := {
  cs_inputs : option (list UTXO);
  cs_outputs : option (list jsval);
  cs_fee : jsval
}.

(** What [getInputs] returns: [{inputs, change, fee, amount}] or
    [{fee, amount}]. *)
Record inputs_result : Type := {
  r_inputs : option (list UTXO);
  r_change : jsval;
  r_fee : jsval;
  r_amount : num
}.

(** An element of [ledgerOutputs]. *)
Record ledger_output : Type := {
  lo_amount : Buffer;
  lo_script : Buffer
}.

(** What [address.toOutputScript] is applied to: a payment's [to], or the
    [Address] found by [getUnusedAddress]. *)
Inductive script_target : Type :=
| ToValue (v : jsval)
| ToSlot (s : slot).

(** The arguments of [createPaymentTransactionNew] that are not the
    constant [undefined]. *)
Record payment_request : Type := {
  pr_inputs : list (string * Z);
  pr_paths : list (option string);
  pr_changePath : string;
  pr_outputScriptHex : string;
  pr_segwit : bool;
  pr_additionals : option (list string)
}.

Record Network : Type := {
  coinType : string
}.

(** The collaborators: the provider ([@jelly-swap/btc-provider]), the
    signing device ([@ledgerhq/hw-app-btc]), bitcoinjs-lib, coinselect, and
    what the runtime prints for a member inherited from
    [Object.prototype]. *)
Record externals : Type := {
  getUnspentTransactions : list Address -> list UTXO;
  getFeePerByte : jsval;
  getRawTransaction : string -> string;
  sendRawTransaction : string -> option (list (string * jsval)) -> jsval;
  coinselect : list UTXO -> list jsval -> jsval -> selection;
  (** the public key of [node.derivePath(subPath)], [node] being the
      account node the device reports for the account path *)
  derivePublicKey : string -> string -> Buffer;
  p2pkh_address : Buffer -> Network -> option string;
  p2sh_p2wpkh_address : Buffer -> Network -> option string;
  p2wpkh_address : Buffer -> Network -> option string;
  toOutputScript : script_target -> Network -> Buffer;
  embed_output : Buffer -> Buffer;
  splitTransaction : string -> string;
  serializeTransactionOutputs : jsval -> string;
  createPaymentTransactionNew : payment_request -> string;
  (** the text of [Object.prototype[k]], for the names it defines *)
  Object_prototype_text : string -> option string
}.

(** The fields of a [BitcoinLedgerProvider] instance. The key cache only
    saves round trips to the device and is left out. *)
Record BitcoinLedgerProvider : Type := {
  network : Network;
  this_derivationPath : string;
  addressType : string
}.

(* ================================================================== *)
(** ** Computations: results, exceptions and the log of calls *)
(* ================================================================== *)

Inductive outcome (A : Type) : Type :=
| Returns (a : A)
| Throws (message : string).
Arguments Returns {A} a.
Arguments Throws {A} message.

Inductive event : Type :=
| EvGetUnspentTransactions (addressList : list Address)
| EvGetFeePerByte
| EvCoinselect (utxos : list UTXO) (outputs : list jsval) (feeRate : jsval)
| EvSerializeTransactionOutputs (tx : jsval)
| EvCreatePaymentTransactionNew (request : payment_request).

Definition M (A : Type) : Type := (outcome A * list event)%type.

Definition ret {A} (a : A) : M A := (Returns a, []).
Definition throw {A} (message : string) : M A := (Throws message, []).
Definition log (e : event) : M unit := (Returns tt, [e]).

Definition bind {A B} (m : M A) (k : A -> M B) : M B :=
  match m with
  | (Returns a, t) => let (r, t') := k a in (r, (t ++ t')%list)
  | (Throws e, t) => (Throws e, t)
  end.

Notation "x <- m ;; k" := (bind m (fun x => k))
  (at level 61, m at next level, right associativity).
Notation "m ;;; k" := (bind m (fun _ => k))
  (at level 61, right associativity).

Definition result_of {A} (m : M A) : outcome A := fst m.
Definition trace_of {A} (m : M A) : list event := snd m.

(** [v.k] where [v] may be undefined or null. *)
Definition prop (v : jsval) (k : string) : M jsval :=
  match v with
  | JUndefined | JNull => throw "TypeError"
  | _ => ret (get_prop v k)
  end.

Fixpoint mapM {A B} (f : A -> M B) (l : list A) : M (list B) :=
  match l with
  | [] => ret []
  | x :: r => y <- f x ;; ys <- mapM f r ;; ret (y :: ys)
  end.

(* ================================================================== *)
(** ** The methods of [BitcoinLedgerProvider] *)
(* ================================================================== *)

(** [ADDRESS_PREFIX] (wallet.ts, line 12). *)
Definition ADDRESS_PREFIX : list (string * Z) :=
  [("legacy", 44); ("p2sh-segwit", 49); ("bech32", 84)].

Fixpoint own_property (k : string) (table : list (string * Z)) : option Z :=
  match table with
  | [] => None
  | (k', v) :: r => if (k =? k')%string then Some v else own_property k r
  end.

(** The integers of [start, stop) in increasing order: the values the
    counter of a [for] loop takes. *)
Definition Zrange (start stop : Z) : list Z :=
  map (fun k => start + Z.of_nat k) (seq 0 (Z.to_nat (stop - start))).

Definition decimal (z : Z) : string := num_to_string (Num z).

Section Wallet.

Variable X : externals.

(** What the template literal prints for [ADDRESS_PREFIX[addressType]]:
    the prefix of a recognised type, an inherited member for the names
    [Object.prototype] defines, and undefined for any other key. *)
Definition ADDRESS_PREFIX_text (addressType : string) : string :=
  match own_property addressType ADDRESS_PREFIX with
  | Some n => decimal n
  | None =>
      match Object_prototype_text X addressType with
      | Some text => text
      | None => "undefined"
      end
  end.

(** The constructor (wallet.ts, lines 25-33). No statement of it throws. *)
Definition new_BitcoinLedgerProvider (network : Network) (addressType : string)
  : outcome BitcoinLedgerProvider :=
  Returns {|
    network := network;
    this_derivationPath :=
      ADDRESS_PREFIX_text addressType ++ "'/" ++ coinType network ++ "'/0'/";
    addressType := addressType
  |}.

Variable this : BitcoinLedgerProvider.

(** [getAddressFromPublicKey] (lines 190-210): undefined when no branch
    is taken. *)
Definition getAddressFromPublicKey (publicKey : Buffer) : option string :=
  if (addressType this =? "legacy")%string then
    p2pkh_address X publicKey (network this)
  else if (addressType this =? "p2sh-segwit")%string then
    p2sh_p2wpkh_address X publicKey (network this)
  else if (addressType this =? "bech32")%string then
    p2wpkh_address X publicKey (network this)
  else None.

(** [getLedgerAddresses] (lines 307-331). *)
Definition getLedgerAddresses (startingIndex numAddresses : Z) (change : bool)
  : list Address :=
  let lastIndex := startingIndex + numAddresses in
  let changeVal := if change then "1" else "0" in
  map (fun currentIndex =>
         let subPath := changeVal ++ "/" ++ decimal currentIndex in
         let publicKey := derivePublicKey X (this_derivationPath this) subPath in
         let address := getAddressFromPublicKey publicKey in
         let path := this_derivationPath this ++ subPath in
         {| a_address := address;
            a_derivationPath := path;
            a_publicKey := publicKey;
            a_index := currentIndex;
            a_change := change |})
      (Zrange startingIndex lastIndex).

(** [getAddresses] (lines 35-37). *)
Definition getAddresses (startingIndex numAddresses : Z) (change : bool)
  : list Address :=
  getLedgerAddresses startingIndex numAddresses change.

(** [getChangeAddresses], [getNonChangeAddresses] (lines 88-94). *)
Definition getChangeAddresses (startingIndex numAddresses : Z) : list Address :=
  getAddresses startingIndex numAddresses true.

Definition getNonChangeAddresses (startingIndex numAddresses : Z) : list Address :=
  getAddresses startingIndex numAddresses false.

(** [getAddressList] (lines 39-49): the change branch first. *)
Definition getAddressList (numAddressPerCall : Z) : list Address :=
  let addressList := [] in
  let changeAddresses := getChangeAddresses 0 numAddressPerCall in
  let addressList := (addressList ++ changeAddresses)%list in
  let nonChangeAddresses := getNonChangeAddresses 0 numAddressPerCall in
  let addressList := (addressList ++ nonChangeAddresses)%list in
  addressList.

(** The loop of [getWalletAddress] (lines 55-69), one iteration per unit
    of [fuel]; [None] when the fuel runs out before the loop ends. *)
Fixpoint getWalletAddress_loop (fuel : nat) (address : string)
    (maxAddresses addressesPerCall : Z) (index : Z) (change : bool)
  : option (outcome Address) :=
  if index <? maxAddresses then
    match fuel with
    | O => None
    | S fuel' =>
        let addresses := getAddresses index addressesPerCall change in
        match find (fun addr => Address_equals addr address) addresses with
        | Some addr => Some (Returns addr)
        | None =>
            let index := index + addressesPerCall in
            if (index =? maxAddresses) && negb change
            then getWalletAddress_loop fuel' address maxAddresses addressesPerCall 0 true
            else getWalletAddress_loop fuel' address maxAddresses addressesPerCall index change
        end
    end
  else Some (Throws "ADDRESS_MISSING_IN_LEDGER").

(** [getWalletAddress] (lines 51-72). *)
Definition getWalletAddress (fuel : nat) (address : string)
    (maxAddresses addressesPerCall : Z) : option (outcome Address) :=
  getWalletAddress_loop fuel address maxAddresses addressesPerCall 0 false.

(** [getBalance] (lines 74-86). *)
Definition getBalance (numAddressPerCall : Z) : M num :=
  let addressList := getAddressList numAddressPerCall in
  log (EvGetUnspentTransactions addressList) ;;;
  let utxos := getUnspentTransactions X addressList in
  let balance :=
    BigNumber_toNumber
      (fold_left (fun prev curr => num_add prev (BigNumber_from_number (u_value curr)))
         utxos (Num 0)) in
  ret balance.

Definition slot_truthy (s : slot) : bool :=
  match s with
  | Addr _ => true
  | Null | Undefined => false
  end.

Definition get_slot (u : unusedAddress_t) (key : bool) : slot :=
  if key then ua_change u else ua_nonChange u.

Definition set_slot (u : unusedAddress_t) (key : bool) (s : slot) : unusedAddress_t :=
  if key then {| ua_change := s; ua_nonChange := ua_nonChange u |}
  else {| ua_change := ua_change u; ua_nonChange := s |}.

(** The body of the [for] loop of [getUsedUnusedAddresses] (lines
    113-126); [key] is [true] for 'change'. *)
Definition classify_step (utxos : list UTXO)
    (st : list Address * unusedAddress_t) (address : Address)
  : list Address * unusedAddress_t :=
  let (usedAddresses, unusedAddress) := st in
  let key := a_change address in
  let isUsed := find (fun utxo => Address_equals address (u_address utxo)) utxos in
  match isUsed with
  | Some _ => ((usedAddresses ++ [address])%list, set_slot unusedAddress key Null)
  | None =>
      if negb (slot_truthy (get_slot unusedAddress key))
      then (usedAddresses, set_slot unusedAddress key (Addr address))
      else (usedAddresses, unusedAddress)
  end.

(** [addressList[0]]. *)
Definition first_address (addressList : list Address) : slot :=
  match addressList with
  | [] => Undefined
  | a :: _ => Addr a
  end.

(** Lines 106-136 of [getUsedUnusedAddresses]: the loop over the address
    list, then the two fallbacks. *)
Definition classifyUsedUnused (utxos : list UTXO) (addressList : list Address)
  : list Address * unusedAddress_t :=
  let usedAddresses := [] in
  let unusedAddress := {| ua_change := Null; ua_nonChange := Null |} in
  let (usedAddresses, unusedAddress) :=
    fold_left (classify_step utxos) addressList (usedAddresses, unusedAddress) in
  let unusedAddress :=
    if negb (slot_truthy (get_slot unusedAddress true))
    then set_slot unusedAddress true (first_address addressList)
    else unusedAddress in
  let unusedAddress :=
    if negb (slot_truthy (get_slot unusedAddress false))
    then set_slot unusedAddress false (first_address addressList)
    else unusedAddress in
  (usedAddresses, unusedAddress).

(** [getUsedUnusedAddresses] (lines 105-137). *)
Definition getUsedUnusedAddresses (numAddressPerCall : Z)
  : M (list Address * unusedAddress_t) :=
  let addressList := getAddressList numAddressPerCall in
  log (EvGetUnspentTransactions addressList) ;;;
  let utxos := getUnspentTransactions X addressList in
  ret (classifyUsedUnused utxos addressList).

(** [getUsedAddresses] (lines 96-98). *)
Definition getUsedAddresses (numAddressPerCall : Z) : M (list Address) :=
  r <- getUsedUnusedAddresses numAddressPerCall ;; ret (fst r).

(** [getUnusedAddress] (lines 100-103). *)
Definition getUnusedAddress (change : bool) (numAddressPerCall : Z) : M slot :=
  let key := change in
  r <- getUsedUnusedAddresses numAddressPerCall ;; ret (get_slot (snd r) key).

(** [getUnusedChangeAddress], [getUnusedNonChangeAddress] (lines 139-145). *)
Definition getUnusedChangeAddress (numAddressPerCall : Z) : M slot :=
  getUnusedAddress true numAddressPerCall.

Definition getUnusedNonChangeAddress (numAddressPerCall : Z) : M slot :=
  getUnusedAddress false numAddressPerCall.

(** [outputs.find((output) => output.id !== 'main')]. *)
Fixpoint find_not_main (outputs : list jsval) : M jsval :=
  match outputs with
  | [] => ret JUndefined
  | output :: rest =>
      id <- prop output "id" ;;
      if strict_neq_string id "main" then ret output else find_not_main rest
  end.

(** The synthetic request handed to coinselect: [[{id: 'main', value: amount}]]. *)
Definition main_request (amount : num) : list jsval :=
  [JObject [("id", JString "main"); ("value", JNumber amount)]].

(** [getInputs] (lines 246-262). *)
Definition getInputs (utxos : list UTXO) (amount : num) (feePerByte : jsval)
  : M inputs_result :=
  log (EvCoinselect utxos (main_request amount) feePerByte) ;;;
  let sel := coinselect X utxos (main_request amount) feePerByte in
  match cs_inputs sel, cs_outputs sel with
  | Some inputs, Some outputs =>
      change <- find_not_main outputs ;;
      change <- (if truthy change then
                   if truthy (get_prop change "length")
                   then prop (get_first change) "value"
                   else ret change
                 else ret change) ;;
      ret {| r_inputs := Some inputs; r_change := change;
             r_fee := cs_fee sel; r_amount := amount |}
  | _, _ =>
      ret {| r_inputs := None; r_change := JUndefined;
             r_fee := cs_fee sel; r_amount := amount |}
  end.

(** The callback of [utxos.map] in [getInputsForAmount] (lines 217-224):
    [addr.derivationPath] throws when no address of the list matches. *)
Definition update_utxo (addrList : list Address) (utxo : UTXO) : M UTXO :=
  match find (fun a => Address_equals a (u_address utxo)) addrList with
  | Some addr =>
      ret {| u_txid := u_txid utxo;
             u_vout := u_vout utxo;
             u_address := u_address utxo;
             u_amount := u_amount utxo;
             u_value := Num (u_amount utxo);
             u_derivationPath := Some (a_derivationPath addr) |}
  | None => throw "TypeError"
  end.

(** [getInputsForAmount] (lines 212-244). *)
Definition getInputsForAmount (amount : jsval) (feePerByte : jsval)
    (numAddressPerCall : Z) : M inputs_result :=
  let addrList := getAddressList numAddressPerCall in
  log (EvGetUnspentTransactions addrList) ;;;
  let utxos := getUnspentTransactions X addrList in
  updatedUtxos <- mapM (update_utxo addrList) utxos ;;
  feePerByte <- (if negb (truthy feePerByte)
                 then log EvGetFeePerByte ;;; ret (getFeePerByte X)
                 else ret feePerByte) ;;
  result <- getInputs updatedUtxos (ToNumber amount) feePerByte ;;
  match r_inputs result with
  | Some _ => ret result
  | None =>
      (* if user tries to use the whole available balance *)
      let fixedAmount := num_sub (BigNumber amount) (BigNumber (r_fee result)) in
      fixedResult <- getInputs updatedUtxos fixedAmount feePerByte ;;
      match r_inputs fixedResult with
      | Some _ => ret fixedResult
      | None => throw "NOT_ENOUGHT_BALANCE"
      end
  end.

(** [getLedgerInputs] (lines 279-289). *)
Definition getLedgerInputs (utxos : list UTXO) : list (string * Z) :=
  map (fun u =>
         let hex := getRawTransaction X (u_txid u) in
         let tx := splitTransaction X hex in
         (tx, u_vout u))
      utxos.

(** The callback of [outputs.map] in [_buildTransaction] (lines 361-375),
    run over the elements in order. [amountWithoutFee] is the variable of
    the enclosing method, which the callback reads and sets to null. *)
Fixpoint map_outputs (outputs : list jsval) (amountWithoutFee : jsval)
  : M (list ledger_output) :=
  match outputs with
  | [] => ret []
  | output :: rest =>
      r <- (if truthy amountWithoutFee
            then ret (amountWithoutFee, JNull)
            else (v <- prop output "value" ;; ret (v, amountWithoutFee))) ;;
      let (amount, amountWithoutFee) := r in
      to <- prop output "to" ;;
      let o := {| lo_amount := getAmountBuffer (ToNumber amount);
                  lo_script := toOutputScript X (ToValue to) (network this) |} in
      os <- map_outputs rest amountWithoutFee ;;
      ret (o :: os)
  end.

(** [outputs.map(callback)]: [outputs] has to be an array. *)
Definition outputs_map (outputs : jsval) (amountWithoutFee : jsval)
  : M (list ledger_output) :=
  match outputs with
  | JArray elems => map_outputs elems amountWithoutFee
  | _ => throw "TypeError"
  end.

(** Lines 343-383 of [_buildTransaction]: what [ledgerOutputs] holds when
    the block is left, and the metadata as it may have been written to.
    [push] appends to [ledgerOutputs]; [concat] builds a new array and
    leaves [ledgerOutputs] as it was, and its result is dropped. The
    metadata is absent or an object. *)
Definition assembleLedgerOutputs (outputs : jsval)
    (data : option (list (string * jsval)))
    (amount : num) (change : jsval) (unusedAddress : slot)
  : M (list ledger_output * option (list (string * jsval))) :=
  let amountWithoutFee := JNumber amount in
  let ledgerOutputs := [] in
  let (ledgerOutputs, data) :=
    match data with
    | Some d =>
        let metadata := Buffer_from_utf8 ("J_" ++ ToString (get_prop (JObject d) "eventName")) in
        let embed := embed_output X metadata in
        let ledgerOutputs :=
          (ledgerOutputs ++ [{| lo_amount := getAmountBuffer (Num 0); lo_script := embed |}])%list in
        (ledgerOutputs,
         if truthy amountWithoutFee
         then Some (set_prop d "inputAmount" amountWithoutFee)
         else Some d)
    | None => (ledgerOutputs, None)
    end in
  mapped <- outputs_map outputs amountWithoutFee ;;
  let _concatenated := (ledgerOutputs ++ mapped)%list in
  let ledgerOutputs :=
    if truthy change
    then (ledgerOutputs ++
          [{| lo_amount := getAmountBuffer (ToNumber (get_prop change "value"));
              lo_script := toOutputScript X (ToSlot unusedAddress) (network this) |}])%list
    else ledgerOutputs in
  ret (ledgerOutputs, data).

(** [_buildTransaction] (lines 333-398): the signed transaction and the
    metadata as left for the caller. [feePerByte] is not used. *)
Definition _buildTransaction (outputs : jsval)
    (data : option (list (string * jsval))) (feePerByte : jsval)
  : M (string * option (list (string * jsval))) :=
  unusedAddress <- getUnusedAddress true 25 ;;
  r <- getInputsForAmount outputs JUndefined 25 ;;
  match r_inputs r with
  | None => throw "TypeError"
  | Some inputs =>
      let change := r_change r in
      let amount := r_amount r in
      let ledgerInputs := getLedgerInputs inputs in
      let paths := map u_derivationPath inputs in
      assembled <- assembleLedgerOutputs outputs data amount change unusedAddress ;;
      let (ledgerOutputs, data) := assembled in
      let tx := JObject [("outputs", outputs)] in
      log (EvSerializeTransactionOutputs tx) ;;;
      let serializedOutputs := serializeTransactionOutputs X tx in
      match unusedAddress with
      | Addr a =>
          let request :=
            {| pr_inputs := ledgerInputs;
               pr_paths := paths;
               pr_changePath := a_derivationPath a;
               pr_outputScriptHex := serializedOutputs;
               pr_segwit := (addressType this =? "bech32")%string
                            || (addressType this =? "p2sh-segwit")%string;
               pr_additionals :=
                 if (addressType this =? "bech32")%string
                 then Some ["bech32"] else None |} in
          log (EvCreatePaymentTransactionNew request) ;;;
          ret (createPaymentTransactionNew X request, data)
      | Null | Undefined => throw "TypeError"
      end
  end.

(** [_sendTransaction] (lines 400-403). *)
Definition _sendTransaction (outputs : jsval)
    (data : option (list (string * jsval))) (feePerByte : jsval) : M jsval :=
  built <- _buildTransaction outputs data feePerByte ;;
  let (signedTransaction, data) := built in
  ret (sendRawTransaction X signedTransaction data).

(** [{to, value}]. *)
Definition payment (to value : jsval) : jsval :=
  JObject [("to", to); ("value", value)].

(** [buildTransaction] (lines 147-149). *)
Definition buildTransaction (to value : jsval)
    (data : option (list (string * jsval))) (feePerByte : jsval)
  : M (string * option (list (string * jsval))) :=
  _buildTransaction (JArray [payment to value]) data feePerByte.


End Wallet.

(* ================================================================== *)
(** ** Vocabulary of the properties *)
(* ================================================================== *)

(** Some output of [utxos] is attributed to the address. *)
Definition is_used (utxos : list UTXO) (a : Address) : bool :=
  existsb (fun utxo => Address_equals a (u_address utxo)) utxos.

(** The slot holds an address: it is neither null nor undefined. *)
Definition holds_address (s : slot) : Prop :=
  exists a, s = Addr a.

(** The first address of [l] on the branch [key], as a slot. *)
Definition first_of_branch (key : bool) (l : list Address) : slot :=
  match find (fun b => Bool.eqb (a_change b) key) l with
  | Some b => Addr b
  | None => Null
  end.

(** The sum of the [value] properties of a list of outputs. *)
Definition sum_values (outputs : list jsval) : num :=
  fold_right (fun o acc => num_add (ToNumber (get_prop o "value")) acc) (Num 0) outputs.

(** The sum of the values of a list of inputs. *)
Definition sum_input_values (inputs : list UTXO) : num :=
  fold_right (fun u acc => num_add (u_value u) acc) (Num 0) inputs.

(** The amount a [change] field stands for: 0 when it is absent. *)
Definition change_amount (change : jsval) : num :=
  match change with
  | JUndefined => Num 0
  | _ => ToNumber (get_prop change "value")
  end.

(** An output object that is not the request and has no [length]. *)
Definition plain_change_output (o : jsval) : Prop :=
  exists props,
    o = JObject props
    /\ strict_neq_string (get_prop o "id") "main" = true
    /\ lookup "length" props = None.

(** The calls to coinselect in a log, in order. *)
Definition coinselect_calls (t : list event) : list (list UTXO * list jsval * jsval) :=
  flat_map (fun e => match e with
                     | EvCoinselect utxos outputs feeRate => [(utxos, outputs, feeRate)]
                     | _ => []
                     end) t.

(** What was handed to [serializeTransactionOutputs] in a log. *)
Definition serialized_values (t : list event) : list jsval :=
  flat_map (fun e => match e with
                     | EvSerializeTransactionOutputs tx => [tx]
                     | _ => []
                     end) t.

(** The metadata output of [_buildTransaction] for an object [d]. *)
Definition metadata_output (X : externals) (d : list (string * jsval)) : ledger_output :=
  {| lo_amount := getAmountBuffer (Num 0);
     lo_script := embed_output X
                    (Buffer_from_utf8 ("J_" ++ ToString (get_prop (JObject d) "eventName"))) |}.

(** The change output of [_buildTransaction]. *)
Definition change_output (X : externals) (this : BitcoinLedgerProvider)
    (change : jsval) (unusedAddress : slot) : ledger_output :=
  {| lo_amount := getAmountBuffer (ToNumber (get_prop change "value"));
     lo_script := toOutputScript X (ToSlot unusedAddress) (network this) |}.

(* ================================================================== *)
(** ** An example wallet *)
(* ================================================================== *)

(** A chain state and collaborators to run the methods on: the public key
    of a sub-path is its text, an address is the text of its public key, the
    provider reports the outputs of the chain that belong to the listed
    addresses, and coin selection spends every output it is given at a flat
    fee of 200 bytes, adding a change output for what is left. *)
Definition example_address (publicKey : Buffer) (_ : Network) : option string :=
  Some (string_of_list_ascii (map (fun b => ascii_of_nat (Z.to_nat b)) publicKey)).

Definition example_coinselect (utxos : list UTXO) (outputs : list jsval)
    (feeRate : jsval) : selection :=
  let fee := match ToNumber feeRate with
             | Num r => Num (r * 200)
             | NaN => NaN
             end in
  let none := {| cs_inputs := None; cs_outputs := None; cs_fee := JNumber fee |} in
  match sum_input_values utxos, sum_values outputs, fee with
  | Num total, Num target, Num f =>
      if target + f <=? total then
        let rest := total - target - f in
        {| cs_inputs := Some utxos;
           cs_outputs :=
             Some (outputs ++
                   (if rest =? 0 then []
                    else [JObject [("value", JNumber (Num rest))]]))%list;
           cs_fee := JNumber fee |}
      else none
  | _, _, _ => none
  end.

Definition example_externals (chain : list UTXO) : externals :=
  {| getUnspentTransactions := fun addressList =>
       filter (fun u => existsb (fun a => Address_equals a (u_address u)) addressList) chain;
     getFeePerByte := JNumber (Num 10);
     getRawTransaction := fun txid => txid;
     sendRawTransaction := fun signed _ => JString signed;
     coinselect := example_coinselect;
     derivePublicKey := fun _ subPath => Buffer_from_utf8 subPath;
     p2pkh_address := example_address;
     p2sh_p2wpkh_address := example_address;
     p2wpkh_address := example_address;
     toOutputScript := fun target _ =>
       match target with
       | ToValue v => Buffer_from_utf8 (ToString v)
       | ToSlot (Addr a) =>
           match a_address a with
           | Some s => Buffer_from_utf8 s
           | None => []
           end
       | ToSlot _ => []
       end;
     embed_output := fun data => 106 :: data;
     splitTransaction := fun hex => hex;
     serializeTransactionOutputs := fun tx => ToString (get_prop tx "outputs");
     createPaymentTransactionNew := fun request => pr_outputScriptHex request;
     Object_prototype_text := fun _ => None |}.

Definition example_network : Network := {| coinType := "0" |}.

Definition example_wallet (addressType : string) : BitcoinLedgerProvider :=
  {| network := example_network;
     this_derivationPath := "84'/0'/0'/";
     addressType := addressType |}.

Definition example_utxo (txid address : string) (amount : Z) : UTXO :=
  {| u_txid := txid; u_vout := 0; u_address := address; u_amount := amount;
     u_value := Num amount; u_derivationPath := None |}.

(** An [Address] of the example wallet. *)
Definition example_Address (subPath : string) (index : Z) (change : bool) : Address :=
  {| a_address := Some subPath;
     a_derivationPath := "84'/0'/0'/" ++ subPath;
     a_publicKey := Buffer_from_utf8 subPath;
     a_index := index;
     a_change := change |}.

(** The collaborators [X] with another coin selection. *)
Definition with_coinselect (X : externals)
    (select : list UTXO -> list jsval -> jsval -> selection) : externals :=
  {| getUnspentTransactions := getUnspentTransactions X;
     getFeePerByte := getFeePerByte X;
     getRawTransaction := getRawTransaction X;
     sendRawTransaction := sendRawTransaction X;
     coinselect := select;
     derivePublicKey := derivePublicKey X;
     p2pkh_address := p2pkh_address X;
     p2sh_p2wpkh_address := p2sh_p2wpkh_address X;
     p2wpkh_address := p2wpkh_address X;
     toOutputScript := toOutputScript X;
     embed_output := embed_output X;
     splitTransaction := splitTransaction X;
     serializeTransactionOutputs := serializeTransactionOutputs X;
     createPaymentTransactionNew := createPaymentTransactionNew X;
     Object_prototype_text := Object_prototype_text X |}.

(** A coin selection that spends every output at a fee of 200 and returns
    what is left in two change outputs, the second one of 300. *)
Definition two_change_coinselect (utxos : list UTXO) (outputs : list jsval)
    (feeRate : jsval) : selection :=
  match sum_input_values utxos, sum_values outputs with
  | Num total, Num target =>
      if target + 500 <? total then
        {| cs_inputs := Some utxos;
           cs_outputs :=
             Some (outputs
                   ++ [JObject [("value", JNumber (Num (total - target - 500)))];
                       JObject [("value", JNumber (Num 300))]])%list;
           cs_fee := JNumber (Num 200) |}
      else {| cs_inputs := None; cs_outputs := None; cs_fee := JNumber (Num 200) |}
  | _, _ => {| cs_inputs := None; cs_outputs := None; cs_fee := JNumber (Num 200) |}
  end.

(** A chain with outputs on the non-change addresses 0 and 2. *)
Definition example_chain : list UTXO :=
  [example_utxo "t0" "0/0" 100000; example_utxo "t2" "0/2" 250000].

(** [unusedAddress] as [getUsedUnusedAddresses] first sets it. *)
Definition initial_state : list Address * unusedAddress_t :=
  ([], {| ua_change := Null; ua_nonChange := Null |}).

(** What the loop of [getUsedUnusedAddresses] maintains once it has gone
    through [processed]: the used addresses have an output, and a slot is
    null or holds an address without output. *)
Definition classified (utxos : list UTXO) (processed : list Address)
    (st : list Address * unusedAddress_t) : Prop :=
  (forall a, In a (fst st) -> In a processed /\ is_used utxos a = true)
  /\ (forall key,
        get_slot (snd st) key = Null
        \/ exists a, get_slot (snd st) key = Addr a
                     /\ In a processed /\ is_used utxos a = false).

(** A computation that calls no collaborator. *)
Definition pure {A} (m : M A) : Prop := trace_of m = [].

(** The fee rate [getInputsForAmount] works with, given its argument. *)
Definition effective_rate (X : externals) (feePerByte : jsval) : jsval :=
  if truthy feePerByte then feePerByte else getFeePerByte X.

(** The outputs requested by a call to coinselect, and its fee rate. *)
Definition call_request (c : list UTXO * list jsval * jsval) : list jsval := snd (fst c).
Definition call_rate (c : list UTXO * list jsval * jsval) : jsval := snd c.

(* ================================================================== *)
(** ** The device key cache and the signing of a script input *)
(* ================================================================== *)

(** [buffer.toString('hex')]: two lower-case digits per byte. *)
Definition Buffer_toString_hex (b : Buffer) : string :=
  string_of_list_ascii
    (flat_map (fun x => [hexDigit (x / 16); hexDigit (x mod 16)]) b).

(** The device as the key cache uses it: its answer to
    [getWalletPublicKey(path, {format})], and the members that every object
    inherits from [Object.prototype], which [path in this.ledgerKeyCache]
    also finds. *)
Record key_device : Type := {
  ledger_getWalletPublicKey : string -> string -> jsval;
  Object_prototype_member : string -> option jsval
}.

(** [_getWalletPublicKey] (wallet.ts, lines 291-295): the key, and the call
    made to the device as (path, format). *)
Definition _getWalletPublicKey (D : key_device) (this : BitcoinLedgerProvider)
    (path : string) : jsval * list (string * string) :=
  let format := if (addressType this =? "p2sh-segwit")%string
                then "p2sh" else addressType this in
  (ledger_getWalletPublicKey D path format, [(path, format)]).

(** [getWalletPublicKey] (lines 297-305), the cache passed in and out: the
    key, the cache as it is left, and the calls made to the device. *)
Definition getWalletPublicKey (D : key_device) (this : BitcoinLedgerProvider)
    (ledgerKeyCache : list (string * jsval)) (path : string)
  : jsval * list (string * jsval) * list (string * string) :=
  match lookup path ledgerKeyCache with
  | Some key => (key, ledgerKeyCache, [])
  | None =>
      match Object_prototype_member D path with
      | Some member => (member, ledgerKeyCache, [])
      | None =>
          let (key, calls) := _getWalletPublicKey D this path in
          (key, set_prop ledgerKeyCache path key, calls)
      end
  end.

(** The arguments of the device's [signP2SHTransaction] that are not
    constant: the one input [[tx, vout.n, script, 0]], the paths, the
    serialized outputs, the lock time and the segwit flag. *)
Record p2sh_request : Type := {
  sr_inputTx : string;
  sr_inputIndex : jsval;
  sr_redeemScriptHex : string;
  sr_paths : list string;
  sr_outputScriptHex : string;
  sr_lockTime : Z;
  sr_segwit : bool
}.

(** The transaction object handed to [signP2SHTransaction] (bitcoinjs-lib)
    and the device's signing of a script input, which answers with an array
    of signatures in hexadecimal. *)
Record script_signer : Type := {
  Transaction : Type;
  setInputScript : Transaction -> jsval -> Buffer -> Transaction;
  toHex : Transaction -> string;
  ledger_signP2SHTransaction : p2sh_request -> list string
}.

(** [signP2SHTransaction] (lines 155-188): the signature and the
    transaction as the method leaves it. [getWalletAddress] runs with its
    default bounds; [None] when its fuel runs out. [Buffer.from] throws on
    undefined, the first element of an empty array. *)
Definition signP2SHTransaction (X : externals) (P : script_signer)
    (this : BitcoinLedgerProvider) (fuel : nat)
    (tx : Transaction P) (rawTx : string) (address : string) (vout : jsval)
    (outputScript : Buffer) (segwit : bool) (expiration : Z)
  : option (outcome (Buffer * Transaction P)) :=
  match getWalletAddress X this fuel address 1000 50 with
  | None => None
  | Some (Throws e) => Some (Throws e)
  | Some (Returns walletAddress) =>
      Some
        match vout with
        | JUndefined | JNull => Throws "TypeError"
        | _ =>
            let tx := if negb segwit
                      then setInputScript P tx (get_prop vout "n") outputScript
                      else tx in
            let ledgerInputTx := splitTransaction X rawTx in
            let ledgerTx := splitTransaction X (toHex P tx) in
            let ledgerOutputs := serializeTransactionOutputs X (JString ledgerTx) in
            let ledgerSig :=
              ledger_signP2SHTransaction P
                {| sr_inputTx := ledgerInputTx;
                   sr_inputIndex := get_prop vout "n";
                   sr_redeemScriptHex := Buffer_toString_hex outputScript;
                   sr_paths := [a_derivationPath walletAddress];
                   sr_outputScriptHex := ledgerOutputs;
                   sr_lockTime := expiration;
                   sr_segwit := segwit |} in
            match ledgerSig with
            | [] =>
                if segwit then Throws "TypeError"
                else Returns (Buffer_from_hex ("undefined" ++ "01"), tx)
            | first :: _ =>
                let finalSig := if segwit then first else first ++ "01" in
                Returns (Buffer_from_hex finalSig, tx)
            end
        end
  end.

(* ================================================================== *)
(** ** Vocabulary of the further properties *)
(* ================================================================== *)

(** The [Address] that [getLedgerAddresses] builds for an index of a
    branch. *)
Definition address_at (X : externals) (this : BitcoinLedgerProvider)
    (change : bool) (index : Z) : Address :=
  let subPath := (if change then "1" else "0") ++ "/" ++ decimal index in
  let publicKey := derivePublicKey X (this_derivationPath this) subPath in
  {| a_address := getAddressFromPublicKey X this publicKey;
     a_derivationPath := this_derivationPath this ++ subPath;
     a_publicKey := publicKey;
     a_index := index;
     a_change := change |}.

(** The requests made to [createPaymentTransactionNew] in a log. *)
Definition payment_requests (t : list event) : list payment_request :=
  flat_map (fun e => match e with
                     | EvCreatePaymentTransactionNew request => [request]
                     | _ => []
                     end) t.

(** The fetches of the provider's fee rate in a log. *)
Definition fee_fetches (t : list event) : nat :=
  List.length (filter (fun e => match e with EvGetFeePerByte => true | _ => false end) t).


(** A byte. *)
Definition is_byte (x : Z) : Prop := 0 <= x < 256.

(** The sum of the values that are numbers, in satoshi. *)
Definition satoshi (utxos : list UTXO) : Z :=
  fold_right (fun u acc => match u_value u with Num z => z + acc | NaN => acc end) 0 utxos.

(** What bignumber.js adds up in [getBalance]: the sum of the decimal texts
    of the values that are numbers. *)
Definition decimal_total (utxos : list UTXO) : Z :=
  fold_right (fun u acc => match u_value u with
                           | Num z => Number_text z + acc
                           | NaN => acc
                           end) 0 utxos.

(** Every value is a number that a double holds exactly. *)
Definition exact_values (utxos : list UTXO) : Prop :=
  forall u, In u utxos -> exists z, u_value u = Num z /\ Z.abs z <= 2 ^ 53.

(** The collaborators [X] with a provider that reports [utxos] whatever
    the addresses it is asked about. *)
Definition reporting (X : externals) (utxos : list UTXO) : externals :=
  {| getUnspentTransactions := fun _ => utxos;
     getFeePerByte := getFeePerByte X;
     getRawTransaction := getRawTransaction X;
     sendRawTransaction := sendRawTransaction X;
     coinselect := coinselect X;
     derivePublicKey := derivePublicKey X;
     p2pkh_address := p2pkh_address X;
     p2sh_p2wpkh_address := p2sh_p2wpkh_address X;
     p2wpkh_address := p2wpkh_address X;
     toOutputScript := toOutputScript X;
     embed_output := embed_output X;
     splitTransaction := splitTransaction X;
     serializeTransactionOutputs := serializeTransactionOutputs X;
     createPaymentTransactionNew := createPaymentTransactionNew X;
     Object_prototype_text := Object_prototype_text X |}.

(** A signer to run [signP2SHTransaction] on: a transaction is its text,
    setting an input script appends a mark to it, and the device signs with
    the fixed signature "3045". *)
Definition example_signer : script_signer :=
  {| Transaction := string;
     setInputScript := fun tx _ _ => tx ++ "+script";
     toHex := fun tx => tx;
     ledger_signP2SHTransaction := fun _ => ["3045"] |}.

(* ================================================================== *)
(** * Properties *)
(* ================================================================== *)

(** ** Doubles and their decimal text *)

(** Up to 2^53 in magnitude an integer is its own Number value. *)
Lemma Number_value_small (z : Z) : Z.abs z <= 2 ^ 53 -> Number_value z = z.
Proof.
  intros H. unfold Number_value.
  destruct (Z.eq_dec (Z.abs z) (2 ^ 53)) as [E | NE].
  - rewrite E. change (Z.log2 (2 ^ 53)) with 53. cbn -[Z.mul Z.sgn].
    destruct (Z.abs_spec z) as [[_ Ha] | [_ Ha]]; rewrite Ha in E.
    + subst z. reflexivity.
    + replace z with (- 2 ^ 53) by lia. reflexivity.
  - assert (Hlt : Z.abs z < 2 ^ 53) by lia.
    assert (Hlog : Z.log2 (Z.abs z) <= 52).
    { destruct (Z.eq_dec (Z.abs z) 0) as [-> | Hnz]; [cbn; lia | ].
      assert (Z.log2 (Z.abs z) < 53); [ | lia].
      apply Z.log2_lt_pow2; lia. }
    replace (Z.max 0 (Z.log2 (Z.abs z) - 52)) with 0 by lia.
    change (2 ^ 0) with 1. rewrite Z.div_1_r, Z.mod_1_r. cbn [Z.mul Z.ltb Z.compare].
    cbv iota. rewrite Z.mul_1_r. rewrite Z.mul_comm. apply Z.abs_sgn.
Qed.

(** The Number value for [c] is one of the two multiples of the unit in
    the last place around it. *)
Lemma Number_value_nonneg (c : Z) :
  0 <= c ->
  let e := Z.max 0 (Z.log2 c - 52) in
  (c / 2 ^ e) * 2 ^ e <= Number_value c <= (c / 2 ^ e + 1) * 2 ^ e.
Proof.
  intros Hc e. unfold Number_value. rewrite Z.abs_eq by exact Hc. fold e.
  assert (Hp : 0 < 2 ^ e) by (apply Z.pow_pos_nonneg; lia).
  destruct (Z.eq_dec c 0) as [-> | Hnz].
  - cbn. lia.
  - rewrite Z.sgn_pos by lia. rewrite Z.mul_1_l.
    destruct (2 * (c mod 2 ^ e) <? 2 ^ e); [nia | ].
    destruct (2 ^ e <? 2 * (c mod 2 ^ e)); [nia | ].
    destruct (Z.even (c / 2 ^ e)); nia.
Qed.

(** Rounding does not cross a power of two. *)
Lemma Number_value_lower (c k : Z) :
  53 <= k -> 2 ^ k <= c -> 2 ^ k <= Number_value c.
Proof.
  intros Hk Hc.
  assert (H0 : 0 < 2 ^ k) by (apply Z.pow_pos_nonneg; lia).
  pose proof (Number_value_nonneg c ltac:(lia)) as [Hlow _]. cbv zeta in Hlow.
  assert (Hlog : k <= Z.log2 c) by (apply Z.log2_le_pow2; lia).
  replace (Z.max 0 (Z.log2 c - 52)) with (Z.log2 c - 52) in Hlow by lia.
  set (e := Z.log2 c - 52) in *.
  assert (Hspec : 2 ^ Z.log2 c <= c) by (apply Z.log2_spec; lia).
  replace (Z.log2 c) with (52 + e) in Hspec by lia.
  rewrite Z.pow_add_r in Hspec by lia.
  assert (Hp : 0 < 2 ^ e) by (apply Z.pow_pos_nonneg; lia).
  assert (Hq : 2 ^ 52 <= c / 2 ^ e) by (apply Z.div_le_lower_bound; lia).
  assert (Hk' : 2 ^ k <= 2 ^ (52 + e)) by (apply Z.pow_le_mono_r; lia).
  rewrite Z.pow_add_r in Hk' by lia. nia.
Qed.

Lemma Number_value_upper (c k : Z) :
  53 <= k -> 0 <= c < 2 ^ k -> Number_value c <= 2 ^ k.
Proof.
  intros Hk [Hc Hlt].
  destruct (Z.lt_ge_cases c (2 ^ 53)) as [Hsmall | Hbig].
  - rewrite Number_value_small by (rewrite Z.abs_eq; lia). lia.
  - pose proof (Number_value_nonneg c Hc) as [_ Hup]. cbv zeta in Hup.
    assert (Hlog : 53 <= Z.log2 c) by (apply Z.log2_le_pow2; lia).
    assert (Hlog' : Z.log2 c < k) by (apply Z.log2_lt_pow2; lia).
    replace (Z.max 0 (Z.log2 c - 52)) with (Z.log2 c - 52) in Hup by lia.
    set (e := Z.log2 c - 52) in *.
    assert (Hspec : c < 2 ^ Z.succ (Z.log2 c)) by (apply Z.log2_spec; lia).
    replace (Z.succ (Z.log2 c)) with (53 + e) in Hspec by lia.
    rewrite Z.pow_add_r in Hspec by lia.
    assert (Hp : 0 < 2 ^ e) by (apply Z.pow_pos_nonneg; lia).
    assert (Hq : c / 2 ^ e < 2 ^ 53) by (apply Z.div_lt_upper_bound; lia).
    assert (Hk' : 2 ^ (53 + e) <= 2 ^ k) by (apply Z.pow_le_mono_r; lia).
    rewrite Z.pow_add_r in Hk' by lia. nia.
Qed.

(** The text of a double is the double itself or reads back as it, and is
    not negative. *)
Lemma shortest_decimal_reads (v : Z) (zeros : nat) :
  0 <= v ->
  0 <= shortest_decimal v zeros
  /\ (shortest_decimal v zeros = v \/ Number_value (shortest_decimal v zeros) = v).
Proof.
  intros Hv. induction zeros as [| k IH]; [cbn; split; [exact Hv | now left] | ].
  cbn [shortest_decimal].
  set (u := 10 ^ Z.of_nat (S k)).
  assert (Hu : 0 < u) by (apply Z.pow_pos_nonneg; lia).
  assert (Hb : 0 <= v / u * u) by (pose proof (Z.div_pos v u Hv Hu); nia).
  destruct (Z.eqb_spec (Number_value (v / u * u)) v) as [Eb | _];
    destruct (Z.eqb_spec (Number_value (v / u * u + u)) v) as [Ea | _].
  - destruct (v - v / u * u <? v / u * u + u - v); [split; [lia | now right] | ].
    destruct (v / u * u + u - v <? v - v / u * u); [split; [lia | now right] | ].
    destruct (Z.even (v / u)); (split; [lia | now right]).
  - split; [lia | now right].
  - split; [lia | now right].
  - exact IH.
Qed.

Lemma Number_text_small (z : Z) : Z.abs z <= 2 ^ 53 -> Number_text z = z.
Proof.
  intros H. unfold Number_text. rewrite Number_value_small by exact H.
  destruct (Z.eq_dec (Z.abs z) (2 ^ 53)) as [E | NE].
  - rewrite E.
    replace (shortest_decimal (2 ^ 53) (Z.to_nat (Z.log2 (2 ^ 53)))) with (2 ^ 53)
      by (vm_compute; reflexivity).
    rewrite <- E, Z.mul_comm. apply Z.abs_sgn.
  - assert (Hlt : Z.abs z < 2 ^ 53) by lia.
    destruct (shortest_decimal_reads (Z.abs z) (Z.to_nat (Z.log2 (Z.abs z)))
                (Z.abs_nonneg z)) as [Hpos [E | E]].
    + rewrite E, Z.mul_comm. apply Z.abs_sgn.
    + set (c := shortest_decimal (Z.abs z) (Z.to_nat (Z.log2 (Z.abs z)))) in *.
      destruct (Z.lt_ge_cases c (2 ^ 53)) as [Hc | Hc].
      * rewrite Number_value_small in E by (rewrite Z.abs_eq; lia).
        rewrite E, Z.mul_comm. apply Z.abs_sgn.
      * pose proof (Number_value_lower c 53 ltac:(lia) Hc). lia.
Qed.

(** Beyond 2^53 the text stays within a power of two of the number. *)
Lemma Number_text_large (z k : Z) :
  53 <= k -> 2 ^ k <= z -> 2 ^ (k - 1) <= Number_text z.
Proof.
  intros Hk Hz.
  assert (H0 : 0 < 2 ^ k) by (apply Z.pow_pos_nonneg; lia).
  assert (Hhalf : 2 ^ (k - 1) < 2 ^ k) by (apply Z.pow_lt_mono_r; lia).
  pose proof (Number_value_lower z k Hk Hz) as Hv.
  unfold Number_text. rewrite Z.sgn_pos, Z.mul_1_l by lia.
  rewrite (Z.abs_eq (Number_value z)) by lia.
  destruct (shortest_decimal_reads (Number_value z)
              (Z.to_nat (Z.log2 (Number_value z))) ltac:(lia)) as [Hpos [E | E]].
  - rewrite E. lia.
  - set (c := shortest_decimal _ _) in *.
    destruct (Z.lt_ge_cases c (2 ^ (k - 1))) as [Hc | Hc]; [ | exact Hc].
    destruct (Z.eq_dec k 53) as [-> | Hk'].
    + rewrite Number_value_small in E by (rewrite Z.abs_eq; change (53 - 1) with 52 in Hc; lia).
      lia.
    + pose proof (Number_value_upper c (k - 1) ltac:(lia) (conj Hpos Hc)). lia.
Qed.

Lemma Number_text_opp (z : Z) : Number_text (- z) = - Number_text z.
Proof.
  unfold Number_text.
  assert (E : Number_value (- z) = - Number_value z).
  { unfold Number_value. rewrite Z.abs_opp, Z.sgn_opp. lia. }
  rewrite E, Z.abs_opp, Z.sgn_opp. lia.
Qed.

(** ** Amount buffers *)

Lemma hexVal_hexDigit (d : Z) :
  0 <= d < 16 -> hexVal (hexDigit d) = Some d.
Proof.
  intros H.
  assert (E : d = 0 \/ d = 1 \/ d = 2 \/ d = 3 \/ d = 4 \/ d = 5 \/ d = 6 \/ d = 7
              \/ d = 8 \/ d = 9 \/ d = 10 \/ d = 11 \/ d = 12 \/ d = 13 \/ d = 14
              \/ d = 15) by lia.
  repeat (destruct E as [E | E]; [subst d; reflexivity | ]).
  subst d; reflexivity.
Qed.

Lemma hexLength_spec (z : Z) :
  0 <= z -> z < 16 ^ Z.of_nat (hexLength z).
Proof.
  intros Hz. unfold hexLength.
  destruct (Z.eqb_spec z 0) as [-> | Hne]; [reflexivity | ].
  assert (Hpos : 0 < z) by lia.
  pose proof (Z.log2_nonneg z) as Hl.
  pose proof (Z.log2_spec z Hpos) as [_ Hup].
  rewrite Nat2Z.inj_succ, Z2Nat.id by (apply Z.div_pos; lia).
  replace 16 with (2 ^ 4) by reflexivity.
  rewrite <- Z.pow_mul_r by (try lia; apply Z.le_le_succ_r, Z.div_pos; lia).
  eapply Z.lt_le_trans; [exact Hup | ].
  apply Z.pow_le_mono_r; [lia | ].
  pose proof (Z.mul_succ_div_gt (Z.log2 z) 4 ltac:(lia)). lia.
Qed.

Lemma hexLength_le (z : Z) (k : nat) :
  0 <= z < 16 ^ Z.of_nat k -> (1 <= k)%nat -> (hexLength z <= k)%nat.
Proof.
  intros [Hz Hlt] Hk. unfold hexLength.
  destruct (Z.eqb_spec z 0) as [-> | Hne]; [exact Hk | ].
  assert (Hpos : 0 < z) by lia.
  pose proof (Z.log2_spec z Hpos) as [Hlow _].
  assert (Hlog : Z.log2 z < 4 * Z.of_nat k).
  { apply (Z.pow_lt_mono_r_iff 2); [lia | lia | ].
    eapply Z.le_lt_trans; [exact Hlow | ].
    rewrite Z.pow_mul_r by lia. exact Hlt. }
  assert (Z.log2 z / 4 < Z.of_nat k) by (apply Z.div_lt_upper_bound; lia).
  pose proof (Z.div_pos (Z.log2 z) 4 (Z.log2_nonneg z) ltac:(lia)).
  lia.
Qed.

Lemma hexDigits_S (k : nat) (z : Z) :
  hexDigits (S k) z = hexDigit ((z / 16 ^ Z.of_nat k) mod 16) :: hexDigits k z.
Proof.
  unfold hexDigits. rewrite seq_S, rev_app_distr. reflexivity.
Qed.

Lemma hexDigits_length (k : nat) (z : Z) : List.length (hexDigits k z) = k.
Proof.
  unfold hexDigits. now rewrite length_map, length_rev, length_seq.
Qed.

Lemma hexDigits_leading_zeros (m d : nat) (z : Z) :
  0 <= z < 16 ^ Z.of_nat m ->
  hexDigits (d + m) z = (repeat "0"%char d ++ hexDigits m z)%list.
Proof.
  intros [Hz Hlt]. induction d as [| d IH]; [reflexivity | ].
  cbn [Nat.add repeat app]. rewrite hexDigits_S, IH. f_equal.
  rewrite Z.div_small; [reflexivity | ].
  split; [exact Hz | ].
  eapply Z.lt_le_trans; [exact Hlt | ].
  apply Z.pow_le_mono_r; lia.
Qed.

Lemma string_of_repeat_app (c : ascii) (d : nat) (l : list ascii) :
  string_of_list_ascii (repeat c d ++ l)%list
  = (repeat_char c d ++ string_of_list_ascii l)%string.
Proof.
  induction d as [| d IH]; [reflexivity | ].
  cbn. now rewrite IH.
Qed.

Lemma string_of_list_length (l : list ascii) :
  String.length (string_of_list_ascii l) = List.length l.
Proof.
  induction l as [| c l IH]; [reflexivity | ]. cbn. now rewrite IH.
Qed.

(** A non-negative amount below 16^16 is printed on sixteen digits. *)
Lemma padHexStart_toString16 (z : Z) :
  0 <= z < 2 ^ 64 ->
  padHexStart (toString16 (Num z)) 16 = string_of_list_ascii (hexDigits 16 z).
Proof.
  intros [Hz Hlt].
  assert (Hlt16 : z < 16 ^ Z.of_nat 16) by (change (16 ^ Z.of_nat 16) with (2 ^ 64); exact Hlt).
  unfold toString16. destruct (Z.ltb_spec z 0) as [Hneg | _]; [lia | ].
  unfold padHexStart, padStart.
  change (16 =? 0) with false. cbv iota. change (16 + Z.rem 16 2) with 16.
  rewrite string_of_list_length, hexDigits_length.
  pose proof (hexLength_le z 16 (conj Hz Hlt16) ltac:(lia)) as Hle.
  pose proof (hexLength_spec z Hz) as Hspec.
  rewrite <- string_of_repeat_app.
  rewrite <- hexDigits_leading_zeros by (split; assumption).
  do 2 f_equal. lia.
Qed.

Lemma byte_of_hex_digits (z p : Z) :
  0 < p ->
  16 * ((z / (16 * p)) mod 16) + (z / p) mod 16 = (z / p) mod 256.
Proof.
  intros Hp.
  replace (16 * p) with (p * 16) by lia.
  rewrite <- Z.div_div by lia.
  change 256 with (16 * 16).
  rewrite Z.rem_mul_r by lia. lia.
Qed.

Lemma Buffer_from_hex_digits (z : Z) :
  rev (Buffer_from_hex (string_of_list_ascii (hexDigits 16 z))) = little_endian 8 z.
Proof.
  unfold hexDigits, little_endian.
  cbn [seq rev app map string_of_list_ascii Buffer_from_hex Z.of_nat Pos.of_succ_nat Pos.succ].
  repeat rewrite hexVal_hexDigit by (apply Z.mod_pos_bound; lia).
  cbn [rev app].
  change (16 ^ 0) with 1. change (256 ^ 0) with 1.
  change (16 ^ 1) with (16 * 1).
  change (16 ^ 2) with (256 ^ 1). change (16 ^ 3) with (16 * 256 ^ 1).
  change (16 ^ 4) with (256 ^ 2). change (16 ^ 5) with (16 * 256 ^ 2).
  change (16 ^ 6) with (256 ^ 3). change (16 ^ 7) with (16 * 256 ^ 3).
  change (16 ^ 8) with (256 ^ 4). change (16 ^ 9) with (16 * 256 ^ 4).
  change (16 ^ 10) with (256 ^ 5). change (16 ^ 11) with (16 * 256 ^ 5).
  change (16 ^ 12) with (256 ^ 6). change (16 ^ 13) with (16 * 256 ^ 6).
  change (16 ^ 14) with (256 ^ 7). change (16 ^ 15) with (16 * 256 ^ 7).
  repeat rewrite byte_of_hex_digits by lia.
  reflexivity.
Qed.

(** C9. For every non-negative integer amount up to 2^53, the range in
    which a double holds every integer, [getAmountBuffer] returns exactly 8
    bytes, the little-endian encoding of the amount: bignumber.js reads the
    amount as it is, [padHexStart] pads the hexadecimal text to 16 digits,
    and the decoded bytes are reversed. *)
Theorem getAmountBuffer_little_endian (amount : Z) :
  0 <= amount <= 2 ^ 53 ->
  BigNumber_from_number (Math_round (Num amount)) = Num amount
  /\ String.length
       (padHexStart (toString16 (BigNumber_from_number (Math_round (Num amount)))) 16)
     = 16%nat
  /\ List.length (getAmountBuffer (Num amount)) = 8%nat
  /\ getAmountBuffer (Num amount) = little_endian 8 amount.
Proof.
  intros H.
  assert (Hread : BigNumber_from_number (Math_round (Num amount)) = Num amount).
  { unfold Math_round, BigNumber_from_number.
    now rewrite Number_text_small by (rewrite Z.abs_eq; lia). }
  assert (H64 : 0 <= amount < 2 ^ 64).
  { split; [lia | ]. apply Z.le_lt_trans with (2 ^ 53); [lia | reflexivity]. }
  assert (E : getAmountBuffer (Num amount) = little_endian 8 amount).
  { unfold getAmountBuffer. rewrite Hread, padHexStart_toString16 by exact H64.
    apply Buffer_from_hex_digits. }
  split; [exact Hread | split; [ | split]].
  - rewrite Hread, padHexStart_toString16 by exact H64.
    now rewrite string_of_list_length, hexDigits_length.
  - rewrite E. unfold little_endian. now rewrite length_map, length_seq.
  - exact E.
Qed.

Lemma getAmountBuffer_little_endian_witness :
  0 <= 100000 <= 2 ^ 53
  /\ getAmountBuffer (Num 100000) = [160; 134; 1; 0; 0; 0; 0; 0].
Proof.
  split; [lia | ].
  exact (proj2 (proj2 (proj2 (getAmountBuffer_little_endian 100000 ltac:(lia))))).
Defined.

(** C9, as stated for every amount below 2^64, fails. The double 2^63
    prints as 9223372036854776000, bignumber.js reads that decimal, and it
    is that decimal, 2^63 + 192, that is encoded: the low byte is 192 where
    the encoding of the amount has 0. *)
Lemma getAmountBuffer_encodes_the_decimal_text :
  0 <= 2 ^ 63 < 2 ^ 64
  /\ Number_value (2 ^ 63) = 2 ^ 63
  /\ BigNumber_from_number (Math_round (Num (2 ^ 63))) = Num 9223372036854776000
  /\ getAmountBuffer (Num (2 ^ 63)) = [192; 0; 0; 0; 0; 0; 0; 128]
  /\ little_endian 8 (2 ^ 63) = [0; 0; 0; 0; 0; 0; 0; 128]
  /\ getAmountBuffer (Num (2 ^ 63)) <> little_endian 8 (2 ^ 63).
Proof.
  split; [split; [lia | reflexivity] | ].
  split; [vm_compute; reflexivity | ].
  split; [vm_compute; reflexivity | ].
  split; [vm_compute; reflexivity | ].
  split; [vm_compute; reflexivity | ].
  vm_compute. discriminate.
Qed.

(** ** The address scanner: used and unused addresses *)

Section Classification.

Variable utxos : list UTXO.

Lemma find_none_is_used (a : Address) :
  find (fun utxo => Address_equals a (u_address utxo)) utxos = None
  <-> is_used utxos a = false.
Proof.
  unfold is_used. induction utxos as [| u us IH]; cbn; [tauto | ].
  destruct (Address_equals a (u_address u)); cbn; [ | exact IH].
  split; discriminate.
Qed.

Lemma is_used_attributed (a : Address) :
  is_used utxos a = true
  <-> exists utxo, In utxo utxos /\ Address_equals a (u_address utxo) = true.
Proof.
  unfold is_used. apply existsb_exists.
Qed.

Lemma get_set_slot_same (u : unusedAddress_t) (key : bool) (s : slot) :
  get_slot (set_slot u key s) key = s.
Proof. destruct key; reflexivity. Qed.

Lemma get_set_slot_other (u : unusedAddress_t) (key key' : bool) (s : slot) :
  key' <> key -> get_slot (set_slot u key s) key' = get_slot u key'.
Proof. destruct key, key'; intros H; try reflexivity; now contradiction H. Qed.

Lemma classify_step_used (st : list Address * unusedAddress_t) (a : Address) :
  is_used utxos a = true ->
  classify_step utxos st a
  = ((fst st ++ [a])%list, set_slot (snd st) (a_change a) Null).
Proof.
  intros Hu. destruct st as [used unused]. unfold classify_step.
  destruct (find _ utxos) eqn:E; [reflexivity | ].
  apply find_none_is_used in E. congruence.
Qed.

Lemma classify_step_unused (st : list Address * unusedAddress_t) (a : Address) :
  is_used utxos a = false ->
  classify_step utxos st a
  = (fst st,
     if slot_truthy (get_slot (snd st) (a_change a))
     then snd st
     else set_slot (snd st) (a_change a) (Addr a)).
Proof.
  intros Hu. destruct st as [used unused]. unfold classify_step.
  apply find_none_is_used in Hu. rewrite Hu. cbn [fst snd].
  now destruct (slot_truthy _).
Qed.

Lemma classify_step_cases (st : list Address * unusedAddress_t) (a : Address) :
  classify_step utxos st a
  = if is_used utxos a
    then ((fst st ++ [a])%list, set_slot (snd st) (a_change a) Null)
    else (fst st,
          if slot_truthy (get_slot (snd st) (a_change a))
          then snd st
          else set_slot (snd st) (a_change a) (Addr a)).
Proof.
  destruct (is_used utxos a) eqn:E;
    [now apply classify_step_used | now apply classify_step_unused].
Qed.

(** The used addresses are the addresses with an output, in list order. *)
Lemma classify_loop_used (l : list Address) (st : list Address * unusedAddress_t) :
  fst (fold_left (classify_step utxos) l st)
  = (fst st ++ filter (is_used utxos) l)%list.
Proof.
  revert st. induction l as [| a l IH]; intros st; cbn [fold_left filter].
  - now rewrite app_nil_r.
  - rewrite IH, classify_step_cases.
    destruct (is_used utxos a); cbn [fst]; [now rewrite <- app_assoc | reflexivity].
Qed.

(** Over addresses of which none on the branch [key] has an output, a
    recorded candidate stays and a missing one becomes the first address of
    the branch. *)
Lemma classify_loop_no_used (key : bool) (l : list Address)
    (st : list Address * unusedAddress_t) :
  (forall b, In b l -> a_change b = key -> is_used utxos b = false) ->
  get_slot (snd st) key <> Undefined ->
  get_slot (snd (fold_left (classify_step utxos) l st)) key
  = if slot_truthy (get_slot (snd st) key)
    then get_slot (snd st) key
    else first_of_branch key l.
Proof.
  revert st. induction l as [| b l IH]; intros st Hno Hdef.
  - cbn. unfold first_of_branch. cbn.
    destruct (get_slot (snd st) key); [reflexivity | now contradiction Hdef | reflexivity].
  - cbn [fold_left]. unfold first_of_branch. cbn [find].
    rewrite classify_step_cases.
    destruct (Bool.eqb (a_change b) key) eqn:Ek.
    + apply eqb_prop in Ek.
      rewrite (Hno b (or_introl eq_refl) Ek). rewrite Ek.
      destruct (slot_truthy (get_slot (snd st) key)) eqn:Et.
      * rewrite IH; cbn [snd]; [now rewrite Et | | exact Hdef].
        intros c Hc; apply Hno; now right.
      * rewrite IH; cbn [snd]; rewrite ?get_set_slot_same; [reflexivity | | discriminate].
        intros c Hc; apply Hno; now right.
    + assert (Hne : key <> a_change b).
      { intros ->. now rewrite eqb_reflx in Ek. }
      assert (Hsame : get_slot (snd (if is_used utxos b
          then ((fst st ++ [b])%list, set_slot (snd st) (a_change b) Null)
          else (fst st,
                if slot_truthy (get_slot (snd st) (a_change b))
                then snd st
                else set_slot (snd st) (a_change b) (Addr b)))) key
          = get_slot (snd st) key).
      { destruct (is_used utxos b); cbn [snd].
        - now apply get_set_slot_other.
        - destruct (slot_truthy (get_slot (snd st) (a_change b)));
            [reflexivity | now apply get_set_slot_other]. }
      rewrite IH; rewrite ?Hsame; [reflexivity | | exact Hdef].
      intros c Hc; apply Hno; now right.
Qed.

Lemma classify_loop_snoc (l : list Address) (a : Address)
    (st : list Address * unusedAddress_t) :
  fold_left (classify_step utxos) (l ++ [a]) st
  = classify_step utxos (fold_left (classify_step utxos) l st) a.
Proof. now rewrite fold_left_app. Qed.

(** C5, as the code has it. Addresses are processed in list order and the
    used addresses are those with an output, in that order. Every used
    address, the first of its branch or a later one, clears the candidate of
    its branch: right after it the slot is null. An address without output
    is recorded only when the slot is empty. So when the loop ends, the
    candidate of a branch is the first address of the branch after its last
    used address, and null when there is none. *)
Theorem classify_every_used_address_clears
    (pre post : list Address) (a : Address) (st : list Address * unusedAddress_t) :
  is_used utxos a = true ->
  (forall b, In b post -> a_change b = a_change a -> is_used utxos b = false) ->
  fst (fold_left (classify_step utxos) (pre ++ a :: post) st)
  = (fst st ++ filter (is_used utxos) (pre ++ a :: post))%list
  /\ get_slot (snd (fold_left (classify_step utxos) (pre ++ [a]) st)) (a_change a) = Null
  /\ get_slot (snd (fold_left (classify_step utxos) (pre ++ a :: post) st)) (a_change a)
     = first_of_branch (a_change a) post.
Proof.
  intros Hu Hpost.
  assert (Hclear : get_slot (snd (fold_left (classify_step utxos) (pre ++ [a]) st))
                     (a_change a) = Null).
  { rewrite classify_loop_snoc, classify_step_used by exact Hu.
    cbn [snd]. apply get_set_slot_same. }
  split; [apply classify_loop_used | split; [exact Hclear | ]].
  replace (pre ++ a :: post)%list with ((pre ++ [a]) ++ post)%list
    by (now rewrite <- app_assoc).
  rewrite fold_left_app, classify_loop_no_used; rewrite ?Hclear;
    [reflexivity | exact Hpost | discriminate].
Qed.

End Classification.

Lemma classify_every_used_address_clears_witness :
  get_slot
    (snd (fold_left (classify_step example_chain)
            [example_Address "0/0" 0 false; example_Address "0/1" 1 false;
             example_Address "0/2" 2 false; example_Address "0/3" 3 false]
            initial_state)) false
  = Addr (example_Address "0/3" 3 false).
Proof.
  refine (proj2 (proj2 (classify_every_used_address_clears example_chain
            [example_Address "0/0" 0 false; example_Address "0/1" 1 false]
            [example_Address "0/3" 3 false]
            (example_Address "0/2" 2 false) initial_state eq_refl _))).
  intros b [<- | []] _. reflexivity.
Defined.

(** C5, as stated, fails: on the non-change addresses 0 (used), 1 (unused)
    and 2 (used), address 1 is recorded after the first used address of the
    branch, and the later used address 2 does not leave it in place. *)
Lemma classify_later_used_address_clears_candidate :
  let st := fold_left (classify_step example_chain)
              [example_Address "0/0" 0 false; example_Address "0/1" 1 false]
              initial_state in
  let st' := classify_step example_chain st (example_Address "0/2" 2 false) in
  is_used example_chain (example_Address "0/0" 0 false) = true
  /\ get_slot (snd st) false = Addr (example_Address "0/1" 1 false)
  /\ is_used example_chain (example_Address "0/2" 2 false) = true
  /\ get_slot (snd st') false = Null
  /\ get_slot (snd st') false <> get_slot (snd st) false.
Proof.
  cbv zeta. repeat split; try reflexivity. discriminate.
Qed.

(** An account without transactions, scanned with a batch size of 5: no
    address is used, and each branch offers its address 0. *)
Example classify_fresh_account :
  result_of (getUsedUnusedAddresses (example_externals []) (example_wallet "bech32") 5)
  = Returns ([], {| ua_change := Addr (example_Address "1/0" 0 true);
                    ua_nonChange := Addr (example_Address "0/0" 0 false) |}).
Proof. vm_compute. reflexivity. Qed.

(** Two unspent outputs of 100000 and 250000: the balance is 350000. *)
Example getBalance_two_outputs :
  result_of (getBalance (example_externals example_chain) (example_wallet "bech32") 5)
  = Returns (Num 350000).
Proof. vm_compute. reflexivity. Qed.

Section Partition.

Variable utxos : list UTXO.

Lemma classify_step_classified (processed : list Address)
    (st : list Address * unusedAddress_t) (a : Address) :
  classified utxos processed st ->
  classified utxos (processed ++ [a]) (classify_step utxos st a).
Proof.
  intros [Hused Hslot]. rewrite classify_step_cases.
  destruct (is_used utxos a) eqn:Eu; split; cbn [fst snd].
  - intros b Hb. apply in_app_or in Hb as [Hb | [<- | []]].
    + destruct (Hused b Hb) as [Hin Hub]. split; [apply in_or_app; now left | exact Hub].
    + split; [apply in_or_app; right; now left | exact Eu].
  - intros key. destruct (Bool.bool_dec key (a_change a)) as [-> | Hne].
    + left. apply get_set_slot_same.
    + rewrite get_set_slot_other by exact Hne.
      destruct (Hslot key) as [Hn | (b & Hb & Hin & Hub)]; [now left | right].
      exists b. repeat split; try assumption. apply in_or_app; now left.
  - intros b Hb. destruct (Hused b Hb) as [Hin Hub].
    split; [apply in_or_app; now left | exact Hub].
  - intros key.
    assert (Hold : get_slot (snd st) key = Null
                   \/ exists b, get_slot (snd st) key = Addr b
                                /\ In b (processed ++ [a]) /\ is_used utxos b = false).
    { destruct (Hslot key) as [Hn | (b & Hb & Hin & Hub)]; [now left | right].
      exists b. repeat split; try assumption. apply in_or_app; now left. }
    destruct (slot_truthy (get_slot (snd st) (a_change a))) eqn:Et; [exact Hold | ].
    destruct (Bool.bool_dec key (a_change a)) as [-> | Hne].
    + right. exists a. rewrite get_set_slot_same.
      repeat split; [apply in_or_app; right; now left | exact Eu].
    + now rewrite get_set_slot_other by exact Hne.
Qed.

Lemma classify_loop_classified (l processed : list Address)
    (st : list Address * unusedAddress_t) :
  classified utxos processed st ->
  classified utxos (processed ++ l) (fold_left (classify_step utxos) l st).
Proof.
  revert processed st. induction l as [| a l IH]; intros processed st H.
  - now rewrite app_nil_r.
  - cbn [fold_left].
    replace (processed ++ a :: l)%list with ((processed ++ [a]) ++ l)%list
      by (now rewrite <- app_assoc).
    apply IH, classify_step_classified, H.
Qed.

Lemma initial_state_classified : classified utxos [] initial_state.
Proof.
  split; [intros a [] | intros key; left; now destruct key].
Qed.

(** On a list that is not empty, each slot of the pair holds an address of
    the list, one without output or else the first of the list; the used
    addresses have an output. *)
Lemma classifyUsedUnused_partition (addressList : list Address) :
  addressList <> [] ->
  (forall key, exists a,
      get_slot (snd (classifyUsedUnused utxos addressList)) key = Addr a
      /\ In a addressList
      /\ (is_used utxos a = false \/ Addr a = first_address addressList))
  /\ (forall a, In a (fst (classifyUsedUnused utxos addressList)) ->
        In a addressList /\ is_used utxos a = true).
Proof.
  intros Hne.
  pose proof (classify_loop_classified addressList [] initial_state
                initial_state_classified) as [Hused Hslot].
  cbn [app] in Hused, Hslot.
  unfold classifyUsedUnused. fold initial_state.
  destruct (fold_left (classify_step utxos) addressList initial_state)
    as [used unused] eqn:E.
  cbn [fst snd] in *.
  destruct addressList as [| a0 rest]; [now contradiction Hne | ].
  cbn [first_address].
  split; [ | exact Hused].
  assert (Hfirst : In a0 (a0 :: rest)) by now left.
  intros key.
  pose proof (Hslot true) as Hc. pose proof (Hslot false) as Hn.
  destruct unused as [c n]. cbn [get_slot ua_change ua_nonChange] in Hc, Hn.
  destruct key; cbn [get_slot ua_change ua_nonChange set_slot slot_truthy negb].
  - destruct Hc as [-> | (b & -> & Hin & Hub)]; cbn.
    + destruct n; cbn; exists a0; auto.
    + destruct n; cbn; exists b; auto.
  - destruct Hc as [-> | (b & -> & Hin & Hub)];
      destruct Hn as [-> | (b' & -> & Hin' & Hub')]; cbn;
      first [ exists a0; now auto | exists b'; now auto ].
Qed.

End Partition.

Lemma Zrange_nonempty (start stop : Z) :
  start < stop -> Zrange start stop <> [].
Proof.
  intros H. unfold Zrange.
  destruct (Z.to_nat (stop - start)) eqn:E; [lia | discriminate].
Qed.

Lemma getAddressList_nonempty (X : externals) (this : BitcoinLedgerProvider)
    (numAddressPerCall : Z) :
  0 < numAddressPerCall -> getAddressList X this numAddressPerCall <> [].
Proof.
  intros H. unfold getAddressList, getChangeAddresses, getAddresses, getLedgerAddresses.
  pose proof (Zrange_nonempty 0 (0 + numAddressPerCall) ltac:(lia)) as Hne.
  destruct (Zrange 0 (0 + numAddressPerCall)); [now contradiction Hne | discriminate].
Qed.

(** C6, for a batch size of at least one. [getUsedUnusedAddresses] returns,
    and each entry of the unused pair holds an address of the scanned list
    which either has no output attributed to it among those the provider
    returned, or is index 0 of the address list; every address classified
    as used has an output attributed to it. *)
Theorem getUsedUnusedAddresses_partition
    (X : externals) (this : BitcoinLedgerProvider) (numAddressPerCall : Z) :
  0 < numAddressPerCall ->
  exists usedAddresses unusedAddress,
    getUsedUnusedAddresses X this numAddressPerCall
    = (Returns (usedAddresses, unusedAddress),
       [EvGetUnspentTransactions (getAddressList X this numAddressPerCall)])
    /\ (forall key, exists a,
          get_slot unusedAddress key = Addr a
          /\ In a (getAddressList X this numAddressPerCall)
          /\ (is_used (getUnspentTransactions X (getAddressList X this numAddressPerCall)) a
              = false
              \/ Addr a = first_address (getAddressList X this numAddressPerCall)))
    /\ (forall a, In a usedAddresses ->
          In a (getAddressList X this numAddressPerCall)
          /\ exists utxo,
               In utxo (getUnspentTransactions X (getAddressList X this numAddressPerCall))
               /\ Address_equals a (u_address utxo) = true).
Proof.
  intros Hpos.
  pose proof (getAddressList_nonempty X this numAddressPerCall Hpos) as Hne.
  set (addressList := getAddressList X this numAddressPerCall) in *.
  set (utxos := getUnspentTransactions X addressList).
  destruct (classifyUsedUnused_partition utxos addressList Hne) as [Hslot Hused].
  exists (fst (classifyUsedUnused utxos addressList)),
         (snd (classifyUsedUnused utxos addressList)).
  split; [ | split].
  - unfold getUsedUnusedAddresses. fold addressList. fold utxos.
    now destruct (classifyUsedUnused utxos addressList).
  - exact Hslot.
  - intros a Ha. destruct (Hused a Ha) as [Hin Hu].
    split; [exact Hin | now apply is_used_attributed].
Qed.

Lemma getUsedUnusedAddresses_partition_witness :
  exists usedAddresses unusedAddress,
    getUsedUnusedAddresses (example_externals example_chain) (example_wallet "bech32") 4
    = (Returns (usedAddresses, unusedAddress),
       [EvGetUnspentTransactions
          (getAddressList (example_externals example_chain) (example_wallet "bech32") 4)])
    /\ (forall key, holds_address (get_slot unusedAddress key)).
Proof.
  destruct (getUsedUnusedAddresses_partition
              (example_externals example_chain) (example_wallet "bech32") 4 eq_refl)
    as (used & unused & Hrun & Hslot & _).
  exists used, unused. split; [exact Hrun | ].
  intros key. destruct (Hslot key) as (a & Ha & _). now exists a.
Defined.

(** C6, as stated for every batch size, fails: with a batch size of 0 the
    address list is empty, [addressList[0]] is undefined, and neither entry
    of the pair holds an address. *)
Lemma getUsedUnusedAddresses_empty_batch :
  exists unusedAddress,
    getUsedUnusedAddresses (example_externals example_chain) (example_wallet "bech32") 0
    = (Returns ([], unusedAddress), [EvGetUnspentTransactions []])
    /\ ua_change unusedAddress = Undefined
    /\ ua_nonChange unusedAddress = Undefined
    /\ ~ holds_address (ua_change unusedAddress)
    /\ ~ holds_address (ua_nonChange unusedAddress).
Proof.
  exists {| ua_change := Undefined; ua_nonChange := Undefined |}.
  repeat split; intros [a Ha]; discriminate Ha.
Qed.

(** ** The address scanner: looking an address up *)

Lemma Zrange_split (start n m : Z) :
  0 <= n -> 0 <= m ->
  Zrange start (start + (n + m))
  = (Zrange start (start + n) ++ Zrange (start + n) (start + n + m))%list.
Proof.
  intros Hn Hm. unfold Zrange.
  replace (start + (n + m) - start) with (n + m) by lia.
  replace (start + n - start) with n by lia.
  replace (start + n + m - (start + n)) with m by lia.
  rewrite Z2Nat.inj_add, seq_app, map_app by lia. f_equal.
  cbn [Nat.add]. rewrite <- (Nat.add_0_r (Z.to_nat n)) at 1.
  generalize 0%nat as base. induction (Z.to_nat m) as [| k IH]; intros base;
    [reflexivity | ].
  cbn [seq map]. f_equal; [lia | ].
  rewrite <- Nat.add_succ_r. apply IH.
Qed.

Section Lookup.

Variable X : externals.
Variable this : BitcoinLedgerProvider.

Lemma getAddresses_split (startingIndex n m : Z) (change : bool) :
  0 <= n -> 0 <= m ->
  getAddresses X this startingIndex (n + m) change
  = (getAddresses X this startingIndex n change
     ++ getAddresses X this (startingIndex + n) m change)%list.
Proof.
  intros Hn Hm. unfold getAddresses, getLedgerAddresses.
  now rewrite Zrange_split, map_app by assumption.
Qed.

Lemma getAddresses_none (startingIndex : Z) (change : bool) :
  getAddresses X this startingIndex 0 change = [].
Proof.
  unfold getAddresses, getLedgerAddresses, Zrange.
  now replace (startingIndex + 0 - startingIndex) with 0 by lia.
Qed.

Lemma find_app {A} (f : A -> bool) (l l' : list A) :
  find f (l ++ l')
  = match find f l with
    | Some a => Some a
    | None => find f l'
    end.
Proof.
  induction l as [| a l IH]; [reflexivity | ].
  cbn. now destruct (f a).
Qed.

(** On the change branch the loop reads the windows that are left and
    stops at [maxAddresses]. *)
Lemma getWalletAddress_loop_change (address : string) (maxAddresses per : Z)
    (windows fuel : nat) (index : Z) :
  0 < per ->
  index + Z.of_nat windows * per = maxAddresses ->
  (windows <= fuel)%nat ->
  getWalletAddress_loop X this fuel address maxAddresses per index true
  = Some match find (fun addr => Address_equals addr address)
                 (getAddresses X this index (Z.of_nat windows * per) true) with
         | Some addr => Returns addr
         | None => Throws "ADDRESS_MISSING_IN_LEDGER"
         end.
Proof.
  intros Hper. revert fuel index.
  induction windows as [| w IH]; intros fuel index Hmax Hfuel.
  - change (Z.of_nat 0 * per) with 0. rewrite getAddresses_none. cbn [find].
    destruct fuel; cbn [getWalletAddress_loop];
      (destruct (Z.ltb_spec index maxAddresses); [lia | reflexivity]).
  - destruct fuel as [| fuel]; [lia | ]. cbn [getWalletAddress_loop].
    destruct (Z.ltb_spec index maxAddresses); [ | nia].
    replace (Z.of_nat (S w) * per) with (per + Z.of_nat w * per) by lia.
    rewrite getAddresses_split, find_app by nia.
    destruct (find _ (getAddresses X this index per true)); [reflexivity | ].
    rewrite andb_false_r. apply IH; lia.
Qed.

(** When the batch size divides [maxAddresses], the lookup reads the whole
    non-change branch, then the whole change branch, and returns the first
    address equal to the target; it throws when there is none. *)
Lemma getWalletAddress_loop_nonChange (address : string) (maxAddresses per : Z)
    (total windows fuel : nat) (index : Z) :
  0 < per ->
  maxAddresses = Z.of_nat total * per ->
  index + Z.of_nat (S windows) * per = maxAddresses ->
  (S windows + total <= fuel)%nat ->
  getWalletAddress_loop X this fuel address maxAddresses per index false
  = Some match find (fun addr => Address_equals addr address)
                 (getAddresses X this index (Z.of_nat (S windows) * per) false
                  ++ getAddresses X this 0 maxAddresses true) with
         | Some addr => Returns addr
         | None => Throws "ADDRESS_MISSING_IN_LEDGER"
         end.
Proof.
  intros Hper Htotal. revert fuel index.
  induction windows as [| w IH]; intros fuel index Hmax Hfuel;
    (destruct fuel as [| fuel]; [lia | ]); cbn [getWalletAddress_loop];
    (destruct (Z.ltb_spec index maxAddresses); [ | nia]);
    rewrite find_app.
  - replace (Z.of_nat 1 * per) with per by lia.
    destruct (find _ (getAddresses X this index per false)); [reflexivity | ].
    replace (index + per =? maxAddresses) with true by (symmetry; apply Z.eqb_eq; lia).
    cbn [andb negb].
    rewrite (getWalletAddress_loop_change address maxAddresses per total fuel 0)
      by (try assumption; lia).
    now rewrite <- Htotal.
  - replace (Z.of_nat (S (S w)) * per) with (per + Z.of_nat (S w) * per) by lia.
    rewrite getAddresses_split, find_app by nia.
    destruct (find _ (getAddresses X this index per false)); [reflexivity | ].
    replace (index + per =? maxAddresses) with false by (symmetry; apply Z.eqb_neq; nia).
    cbn [andb]. rewrite IH by lia. now rewrite find_app.
Qed.

Lemma getWalletAddress_when_batch_divides (address : string) (per : Z)
    (total fuel : nat) :
  0 < per ->
  (2 * total <= fuel)%nat ->
  getWalletAddress X this fuel address (Z.of_nat total * per) per
  = Some match find (fun addr => Address_equals addr address)
                 (getAddresses X this 0 (Z.of_nat total * per) false
                  ++ getAddresses X this 0 (Z.of_nat total * per) true) with
         | Some addr => Returns addr
         | None => Throws "ADDRESS_MISSING_IN_LEDGER"
         end.
Proof.
  intros Hper Hfuel. unfold getWalletAddress.
  destruct total as [| w].
  - change (Z.of_nat 0 * per) with 0. rewrite !getAddresses_none.
    destruct fuel; reflexivity.
  - apply (getWalletAddress_loop_nonChange address _ per (S w) w);
      [assumption | reflexivity | lia | lia].
Qed.

(** When the batch size does not divide [maxAddresses], [index] is never
    equal to [maxAddresses]: the loop reads non-change windows until [index]
    has passed [maxAddresses] and never enters the change branch. *)
Lemma getWalletAddress_loop_no_switch (address : string) (maxAddresses per : Z)
    (quotient windows fuel : nat) (index : Z) :
  0 < per ->
  Z.of_nat quotient * per < maxAddresses < Z.of_nat (S quotient) * per ->
  index + Z.of_nat windows * per = Z.of_nat (S quotient) * per ->
  (windows <= fuel)%nat ->
  getWalletAddress_loop X this fuel address maxAddresses per index false
  = Some match find (fun addr => Address_equals addr address)
                 (getAddresses X this index (Z.of_nat windows * per) false) with
         | Some addr => Returns addr
         | None => Throws "ADDRESS_MISSING_IN_LEDGER"
         end.
Proof.
  intros Hper Hmax. revert fuel index.
  induction windows as [| w IH]; intros fuel index Hindex Hfuel.
  - change (Z.of_nat 0 * per) with 0. rewrite getAddresses_none. cbn [find].
    destruct fuel; cbn [getWalletAddress_loop];
      (destruct (Z.ltb_spec index maxAddresses); [lia | reflexivity]).
  - assert (Hw : 0 <= Z.of_nat w * per) by nia.
    replace (Z.of_nat (S w) * per) with (per + Z.of_nat w * per) in * by lia.
    replace (Z.of_nat (S quotient) * per) with (per + Z.of_nat quotient * per) in * by lia.
    destruct fuel as [| fuel]; [lia | ]. cbn [getWalletAddress_loop].
    destruct (Z.ltb_spec index maxAddresses); [ | lia].
    rewrite getAddresses_split, find_app by lia.
    destruct (find _ (getAddresses X this index per false)); [reflexivity | ].
    assert (Hne : index + per <> maxAddresses).
    { destruct w as [| w']; [lia | ].
      assert (0 <= Z.of_nat w' * per) by nia.
      replace (Z.of_nat (S w') * per) with (per + Z.of_nat w' * per) in * by lia. lia. }
    apply Z.eqb_neq in Hne. rewrite Hne.
    cbn [andb]. apply IH; lia.
Qed.

(** With a batch size of 0 the loop makes no progress: whatever the fuel,
    it has not ended. *)
Lemma getWalletAddress_empty_batch (address : string) (maxAddresses : Z)
    (fuel : nat) :
  0 < maxAddresses ->
  getWalletAddress X this fuel address maxAddresses 0 = None.
Proof.
  intros Hmax. unfold getWalletAddress.
  induction fuel as [| fuel IH]; cbn [getWalletAddress_loop];
    (destruct (Z.ltb_spec 0 maxAddresses); [ | lia]); [reflexivity | ].
  rewrite getAddresses_none. cbn [find Z.add].
  replace (0 =? maxAddresses) with false by (symmetry; apply Z.eqb_neq; lia).
  exact IH.
Qed.

End Lookup.

(** C7 on the code. When the batch size does not divide [maxAddresses]
    (which lies strictly between [q] and [q + 1] batches), the lookup reads
    [q + 1] windows of the non-change branch, up to an index beyond
    [maxAddresses], and then throws: the change branch is never scanned.
    With the target at address 0 of the change branch, [maxAddresses] 5 and
    a batch size of 2 the lookup throws although the change branch holds the
    target; with [maxAddresses] 6 the same lookup finds it. *)
Theorem getWalletAddress_skips_change_branch :
  (forall (X : externals) (this : BitcoinLedgerProvider) (address : string)
          (maxAddresses addressesPerCall : Z) (q fuel : nat),
      0 < addressesPerCall ->
      Z.of_nat q * addressesPerCall < maxAddresses < Z.of_nat (S q) * addressesPerCall ->
      (S q <= fuel)%nat ->
      getWalletAddress X this fuel address maxAddresses addressesPerCall
      = Some match find (fun addr => Address_equals addr address)
                     (getAddresses X this 0 (Z.of_nat (S q) * addressesPerCall) false) with
             | Some addr => Returns addr
             | None => Throws "ADDRESS_MISSING_IN_LEDGER"
             end)
  /\ find (fun addr => Address_equals addr "1/0")
       (getAddresses (example_externals []) (example_wallet "bech32") 0 5 true)
     = Some (example_Address "1/0" 0 true)
  /\ getWalletAddress (example_externals []) (example_wallet "bech32") 3 "1/0" 5 2
     = Some (Throws "ADDRESS_MISSING_IN_LEDGER")
  /\ getWalletAddress (example_externals []) (example_wallet "bech32") 4 "1/0" 6 2
     = Some (Returns (example_Address "1/0" 0 true)).
Proof.
  split; [ | repeat split; vm_compute; reflexivity].
  intros X this address maxAddresses addressesPerCall q fuel Hper Hmax Hfuel.
  unfold getWalletAddress.
  apply (getWalletAddress_loop_no_switch X this address maxAddresses addressesPerCall q);
    [assumption | assumption | lia | assumption].
Qed.

(** ** Address formats *)

Lemma own_property_unrecognised (format : string) :
  format <> "legacy" -> format <> "p2sh-segwit" -> format <> "bech32" ->
  own_property format ADDRESS_PREFIX = None.
Proof.
  intros H1 H2 H3. cbn.
  apply String.eqb_neq in H1, H2, H3. now rewrite H1, H2, H3.
Qed.

(** C8, as the code has it. For a format that is none of legacy,
    p2sh-segwit and bech32 the constructor returns an instance and nothing
    is thrown: the derivation path starts with the text read for a missing
    key (undefined, unless the format names a member of Object.prototype),
    [getAddressFromPublicKey] returns undefined for every public key, and
    every derived [Address] has an undefined address. *)
Theorem unsupported_format_is_not_rejected
    (X : externals) (net : Network) (format : string) :
  format <> "legacy" -> format <> "p2sh-segwit" -> format <> "bech32" ->
  exists this,
    new_BitcoinLedgerProvider X net format = Returns this
    /\ addressType this = format
    /\ (Object_prototype_text X format = None ->
        this_derivationPath this = "undefined'/" ++ coinType net ++ "'/0'/")
    /\ (forall publicKey, getAddressFromPublicKey X this publicKey = None)
    /\ (forall startingIndex numAddresses change a,
          In a (getLedgerAddresses X this startingIndex numAddresses change) ->
          a_address a = None).
Proof.
  intros H1 H2 H3.
  eexists. split; [reflexivity | ]. cbn [addressType this_derivationPath].
  assert (Hnone : forall publicKey,
             getAddressFromPublicKey X
               {| network := net;
                  this_derivationPath :=
                    ADDRESS_PREFIX_text X format ++ "'/" ++ coinType net ++ "'/0'/";
                  addressType := format |} publicKey = None).
  { intros publicKey. unfold getAddressFromPublicKey. cbn [addressType].
    apply String.eqb_neq in H1, H2, H3. now rewrite H1, H2, H3. }
  split; [reflexivity | split; [ | split]].
  - intros Hproto. unfold ADDRESS_PREFIX_text.
    now rewrite own_property_unrecognised, Hproto by assumption.
  - exact Hnone.
  - intros startingIndex numAddresses change a Ha.
    unfold getLedgerAddresses in Ha. apply in_map_iff in Ha as (i & <- & _).
    cbn [a_address]. apply Hnone.
Qed.

Lemma unsupported_format_is_not_rejected_witness :
  exists this,
    new_BitcoinLedgerProvider (example_externals []) example_network "taproot"
    = Returns this
    /\ this_derivationPath this = "undefined'/0'/0'/"
    /\ getAddressFromPublicKey (example_externals []) this [2; 3] = None.
Proof.
  destruct (unsupported_format_is_not_rejected (example_externals []) example_network
              "taproot" ltac:(discriminate) ltac:(discriminate) ltac:(discriminate))
    as (this & Hnew & _ & Hpath & Hnone & _).
  exists this. split; [exact Hnew | split; [exact (Hpath eq_refl) | apply Hnone]].
Defined.

(** C8, as stated, fails: constructing a wallet with the format "taproot"
    throws nothing and returns an instance, and deriving an address with it
    returns an [Address] whose address is undefined. *)
Lemma unsupported_format_is_accepted :
  new_BitcoinLedgerProvider (example_externals []) example_network "taproot"
  = Returns {| network := example_network;
               this_derivationPath := "undefined'/0'/0'/";
               addressType := "taproot" |}
  /\ new_BitcoinLedgerProvider (example_externals []) example_network "taproot"
     <> Throws "UnsupportedAddressFormat"
  /\ getLedgerAddresses (example_externals [])
       {| network := example_network;
          this_derivationPath := "undefined'/0'/0'/";
          addressType := "taproot" |} 0 1 false
     = [{| a_address := None;
           a_derivationPath := "undefined'/0'/0'/0/0";
           a_publicKey := [48; 47; 48];
           a_index := 0;
           a_change := false |}].
Proof.
  repeat split. discriminate.
Qed.

(** ** Computations and their logs *)

Lemma trace_bind {A B} (m : M A) (k : A -> M B) :
  trace_of (bind m k)
  = match result_of m with
    | Returns a => (trace_of m ++ trace_of (k a))%list
    | Throws _ => trace_of m
    end.
Proof.
  destruct m as [[a | e] t]; cbn; [ | reflexivity].
  now destruct (k a).
Qed.

Lemma result_bind {A B} (m : M A) (k : A -> M B) :
  result_of (bind m k)
  = match result_of m with
    | Returns a => result_of (k a)
    | Throws e => Throws e
    end.
Proof.
  destruct m as [[a | e] t]; cbn; [ | reflexivity].
  now destruct (k a).
Qed.

Lemma pure_ret {A} (a : A) : pure (ret a).
Proof. reflexivity. Qed.

Lemma pure_throw {A} (e : string) : pure (@throw A e).
Proof. reflexivity. Qed.

Lemma pure_bind {A B} (m : M A) (k : A -> M B) :
  pure m -> (forall a, pure (k a)) -> pure (bind m k).
Proof.
  unfold pure. intros Hm Hk. rewrite trace_bind, Hm.
  destruct (result_of m); [apply Hk | reflexivity].
Qed.

Lemma pure_prop (v : jsval) (k : string) : pure (prop v k).
Proof. now destruct v. Qed.

Create HintDb js_pure.
#[export] Hint Resolve pure_ret pure_throw pure_prop : js_pure.

Ltac solve_pure :=
  repeat match goal with
    | |- pure (bind _ _) => apply pure_bind; [ | intros ]
    | |- pure (if ?b then _ else _) => destruct b
    | |- pure (let (_, _) := ?x in _) => destruct x
    | |- pure (match ?x with _ => _ end) => destruct x
    | |- pure _ => solve [auto with js_pure]
    end.

Lemma pure_mapM {A B} (f : A -> M B) (l : list A) :
  (forall x, pure (f x)) -> pure (mapM f l).
Proof.
  intros Hf. induction l as [| x l IH]; cbn [mapM]; solve_pure.
Qed.

Lemma pure_find_not_main (outputs : list jsval) : pure (find_not_main outputs).
Proof.
  induction outputs as [| o l IH]; cbn [find_not_main]; solve_pure.
Qed.

Lemma pure_update_utxo (addrList : list Address) (utxo : UTXO) :
  pure (update_utxo addrList utxo).
Proof. unfold update_utxo. solve_pure. Qed.

#[export] Hint Resolve pure_find_not_main pure_update_utxo : js_pure.

Lemma pure_map_outputs (X : externals) (this : BitcoinLedgerProvider)
    (outputs : list jsval) (amountWithoutFee : jsval) :
  pure (map_outputs X this outputs amountWithoutFee).
Proof.
  revert amountWithoutFee.
  induction outputs as [| o l IH]; intros awf; cbn [map_outputs]; solve_pure.
Qed.

#[export] Hint Resolve pure_map_outputs : js_pure.

Lemma pure_assembleLedgerOutputs (X : externals) (this : BitcoinLedgerProvider)
    (outputs : jsval) (data : option (list (string * jsval)))
    (amount : num) (change : jsval) (unusedAddress : slot) :
  pure (assembleLedgerOutputs X this outputs data amount change unusedAddress).
Proof.
  unfold assembleLedgerOutputs, outputs_map.
  destruct data; solve_pure.
Qed.

Lemma coinselect_calls_app (t t' : list event) :
  coinselect_calls (t ++ t') = (coinselect_calls t ++ coinselect_calls t')%list.
Proof. apply flat_map_app. Qed.

Lemma coinselect_calls_bind {A B} (m : M A) (k : A -> M B) :
  coinselect_calls (trace_of (bind m k))
  = (coinselect_calls (trace_of m)
     ++ match result_of m with
        | Returns a => coinselect_calls (trace_of (k a))
        | Throws _ => []
        end)%list.
Proof.
  rewrite trace_bind. destruct (result_of m);
    [apply coinselect_calls_app | now rewrite app_nil_r].
Qed.

Lemma coinselect_calls_pure {A} (m : M A) :
  pure m -> coinselect_calls (trace_of m) = [].
Proof. unfold pure. now intros ->. Qed.

(** ** The coin selector *)

Section CoinSelector.

Variable X : externals.
Variable this : BitcoinLedgerProvider.

(** [getInputs] calls coinselect once, with the single request of [amount]. *)
Lemma getInputs_trace (utxos : list UTXO) (amount : num) (feePerByte : jsval) :
  trace_of (getInputs X utxos amount feePerByte)
  = [EvCoinselect utxos (main_request amount) feePerByte].
Proof.
  unfold getInputs. rewrite trace_bind. cbn [log result_of trace_of fst snd].
  match goal with |- ([?e] ++ trace_of ?m)%list = _ => assert (Hp : pure m) end.
  { destruct (cs_inputs _); [destruct (cs_outputs _) | ]; solve_pure. }
  now rewrite Hp.
Qed.

Lemma getInputs_calls (utxos : list UTXO) (amount : num) (feePerByte : jsval) :
  coinselect_calls (trace_of (getInputs X utxos amount feePerByte))
  = [(utxos, main_request amount, feePerByte)].
Proof. now rewrite getInputs_trace. Qed.

(** The part of [getInputsForAmount] that follows the rewriting of the
    outputs (lines 226-243). *)
Lemma getInputsForAmount_unfold (amount feePerByte : jsval) (n : Z) :
  getInputsForAmount X this amount feePerByte n
  = (log (EvGetUnspentTransactions (getAddressList X this n)) ;;;
     updatedUtxos <- mapM (update_utxo (getAddressList X this n))
                       (getUnspentTransactions X (getAddressList X this n)) ;;
     feePerByte <- (if negb (truthy feePerByte)
                    then log EvGetFeePerByte ;;; ret (getFeePerByte X)
                    else ret feePerByte) ;;
     result <- getInputs X updatedUtxos (ToNumber amount) feePerByte ;;
     match r_inputs result with
     | Some _ => ret result
     | None =>
         fixedResult <- getInputs X updatedUtxos
                          (num_sub (BigNumber amount) (BigNumber (r_fee result)))
                          feePerByte ;;
         match r_inputs fixedResult with
         | Some _ => ret fixedResult
         | None => throw "NOT_ENOUGHT_BALANCE"
         end
     end).
Proof. reflexivity. Qed.

Lemma fetch_rate_result (feePerByte : jsval) :
  result_of (if negb (truthy feePerByte)
             then log EvGetFeePerByte ;;; ret (getFeePerByte X)
             else ret feePerByte)
  = Returns (effective_rate X feePerByte).
Proof. unfold effective_rate. now destruct (truthy feePerByte). Qed.

Lemma fetch_rate_calls (feePerByte : jsval) :
  coinselect_calls
    (trace_of (if negb (truthy feePerByte)
               then log EvGetFeePerByte ;;; ret (getFeePerByte X)
               else ret feePerByte))
  = [].
Proof. now destruct (truthy feePerByte). Qed.

(** The calls [getInputsForAmount] makes to coinselect, and its result,
    once the outputs have been rewritten. *)
Lemma getInputsForAmount_run (amount feePerByte : jsval) (n : Z)
    (updatedUtxos : list UTXO) :
  result_of (mapM (update_utxo (getAddressList X this n))
               (getUnspentTransactions X (getAddressList X this n)))
  = Returns updatedUtxos ->
  let rate := effective_rate X feePerByte in
  let first := getInputs X updatedUtxos (ToNumber amount) rate in
  let retry fee :=
    getInputs X updatedUtxos (num_sub (BigNumber amount) (BigNumber fee)) rate in
  coinselect_calls (trace_of (getInputsForAmount X this amount feePerByte n))
  = ((updatedUtxos, main_request (ToNumber amount), rate)
     :: match result_of first with
        | Returns r =>
            match r_inputs r with
            | Some _ => []
            | None =>
                [(updatedUtxos,
                  main_request (num_sub (BigNumber amount) (BigNumber (r_fee r))),
                  rate)]
            end
        | Throws _ => []
        end)
  /\ result_of (getInputsForAmount X this amount feePerByte n)
     = match result_of first with
       | Returns r =>
           match r_inputs r with
           | Some _ => Returns r
           | None =>
               match result_of (retry (r_fee r)) with
               | Returns r' =>
                   match r_inputs r' with
                   | Some _ => Returns r'
                   | None => Throws "NOT_ENOUGHT_BALANCE"
                   end
               | Throws e => Throws e
               end
           end
       | Throws e => Throws e
       end.
Proof.
  intros Hupd rate first retry. rewrite getInputsForAmount_unfold.
  split.
  - rewrite coinselect_calls_bind. cbn [log trace_of result_of fst snd coinselect_calls flat_map app].
    rewrite coinselect_calls_bind, Hupd.
    rewrite (coinselect_calls_pure (mapM _ _)) by (apply pure_mapM; auto with js_pure).
    cbn [app].
    rewrite coinselect_calls_bind, fetch_rate_calls, fetch_rate_result. cbn [app].
    rewrite coinselect_calls_bind, getInputs_calls. fold rate. fold first. cbn [app].
    f_equal.
    destruct (result_of first) as [r | e]; [ | reflexivity].
    destruct (r_inputs r); [reflexivity | ].
    rewrite coinselect_calls_bind, getInputs_calls. fold (retry (r_fee r)).
    destruct (result_of (retry (r_fee r))) as [r' | e']; [ | reflexivity].
    now destruct (r_inputs r').
  - rewrite result_bind. cbn [log result_of fst].
    rewrite result_bind, Hupd, result_bind, fetch_rate_result, result_bind.
    fold rate. fold first.
    destruct (result_of first) as [r | e]; [ | reflexivity].
    destruct (r_inputs r) eqn:Ei; [reflexivity | ].
    rewrite result_bind. fold (retry (r_fee r)).
    destruct (result_of (retry (r_fee r))) as [r' | e']; [ | reflexivity].
    now destruct (r_inputs r').
Qed.

End CoinSelector.



Lemma find_not_main_request (amount : num) (rest : list jsval) :
  Forall plain_change_output rest ->
  find_not_main (main_request amount ++ rest) = ret (hd JUndefined rest).
Proof.
  intros Hrest. cbn.
  destruct Hrest as [| o l (props & -> & Hid & _) _]; [reflexivity | ].
  cbn [find_not_main prop bind ret]. cbn [hd].
  now rewrite Hid.
Qed.

Lemma num_add_balance (amount fee c total : num) :
  total = num_add (num_add amount (num_add c (Num 0))) fee ->
  total = num_add (num_add amount fee) c.
Proof.
  intros ->. destruct amount, fee, c; cbn; try reflexivity. f_equal. lia.
Qed.

(** C4, as the code has it. When coinselect returns inputs, and outputs
    made of the request followed by plain output objects, [getInputs]
    returns with those inputs, and its [change] field is the first output
    that is not the request: the output object itself, whose [value]
    property is the change, or undefined when there is none. When the
    collaborator returned at most one such output and its result balances
    (the inputs sum to the outputs plus the fee), the inputs sum to the
    target plus the fee plus the value of [change], taken as 0 when
    absent. *)
Theorem getInputs_change_is_the_output
    (X : externals) (utxos : list UTXO) (amount : num) (feePerByte : jsval)
    (inputs : list UTXO) (rest : list jsval) (fee : jsval) :
  coinselect X utxos (main_request amount) feePerByte
  = {| cs_inputs := Some inputs;
       cs_outputs := Some (main_request amount ++ rest)%list;
       cs_fee := fee |} ->
  Forall plain_change_output rest ->
  exists r,
    getInputs X utxos amount feePerByte
    = (Returns r, [EvCoinselect utxos (main_request amount) feePerByte])
    /\ r_inputs r = Some inputs
    /\ r_fee r = fee
    /\ r_amount r = amount
    /\ r_change r = hd JUndefined rest
    /\ ((List.length rest <= 1)%nat ->
        sum_input_values inputs
        = num_add (sum_values (main_request amount ++ rest)) (ToNumber fee) ->
        sum_input_values inputs
        = num_add (num_add amount (ToNumber fee)) (change_amount (r_change r))).
Proof.
  intros Hsel Hrest.
  exists {| r_inputs := Some inputs; r_change := hd JUndefined rest;
            r_fee := fee; r_amount := amount |}.
  split; [ | repeat split].
  - unfold getInputs. rewrite Hsel. cbn [cs_inputs cs_outputs cs_fee].
    rewrite find_not_main_request by exact Hrest.
    destruct Hrest as [| o l (props & -> & Hid & Hlen) _]; [reflexivity | ].
    cbn [hd bind ret log truthy get_prop]. rewrite Hlen. reflexivity.
  - cbn [r_change]. intros Hlen Hbal.
    destruct Hrest as [| o l (props & -> & Hid & _) _].
    + cbn in Hbal |- *. rewrite Hbal.
      destruct amount, (ToNumber fee); cbn; try reflexivity. f_equal. lia.
    + destruct l; [ | cbn in Hlen; lia].
      cbn [hd change_amount]. apply num_add_balance. exact Hbal.
Qed.

Lemma getInputs_change_is_the_output_witness :
  exists r,
    getInputs (example_externals []) [example_utxo "t0" "0/0" 100000]
      (Num 1000) (JNumber (Num 10))
    = (Returns r,
       [EvCoinselect [example_utxo "t0" "0/0" 100000] (main_request (Num 1000))
          (JNumber (Num 10))])
    /\ r_change r = JObject [("value", JNumber (Num 97000))]
    /\ sum_input_values [example_utxo "t0" "0/0" 100000]
       = num_add (num_add (Num 1000) (Num 2000)) (change_amount (r_change r)).
Proof.
  destruct (getInputs_change_is_the_output (example_externals [])
              [example_utxo "t0" "0/0" 100000] (Num 1000) (JNumber (Num 10))
              [example_utxo "t0" "0/0" 100000]
              [JObject [("value", JNumber (Num 97000))]] (JNumber (Num 2000))
              eq_refl)
    as (r & Hrun & _ & _ & _ & Hchange & Hbalance).
  - constructor; [ | constructor].
    exists [("value", JNumber (Num 97000))]. repeat split.
  - exists r. split; [exact Hrun | split; [exact Hchange | ]].
    apply Hbalance; [cbn; lia | reflexivity].
Defined.

(** C4, as stated, fails. The [change] field of a successful selection is
    not the numeric value of the first output that is not the request, it
    is that output. And the sum of the inputs is the target plus the fee
    plus that one change only as far as the collaborator makes it so: when
    it returns two change outputs (of 500 and 300 on inputs of 2000, for a
    target of 1000 and a fee of 200), [change] is the first and the sum is
    off by the second. *)
Lemma getInputs_change_is_not_a_number :
  (exists r,
     result_of (getInputs (example_externals []) [example_utxo "t0" "0/0" 100000]
                  (Num 1000) (JNumber (Num 10)))
     = Returns r
     /\ cs_outputs (coinselect (example_externals []) [example_utxo "t0" "0/0" 100000]
                      (main_request (Num 1000)) (JNumber (Num 10)))
        = Some (main_request (Num 1000) ++ [JObject [("value", JNumber (Num 97000))]])%list
     /\ r_change r = JObject [("value", JNumber (Num 97000))]
     /\ r_change r <> JNumber (Num 97000))
  /\ (exists r inputs,
        result_of (getInputs (with_coinselect (example_externals []) two_change_coinselect)
                     [example_utxo "t0" "0/0" 2000] (Num 1000) (JNumber (Num 10)))
        = Returns r
        /\ r_inputs r = Some inputs
        /\ r_fee r = JNumber (Num 200)
        /\ r_change r = JObject [("value", JNumber (Num 500))]
        /\ sum_input_values inputs = Num 2000
        /\ num_add (num_add (Num 1000) (ToNumber (r_fee r))) (change_amount (r_change r))
           = Num 1700).
Proof.
  split.
  - eexists. split; [reflexivity | ]. repeat split. discriminate.
  - do 2 eexists. repeat split.
Qed.

(** ** Fetches of the fee rate *)

Lemma fee_fetches_app (t t' : list event) :
  fee_fetches (t ++ t') = (fee_fetches t + fee_fetches t')%nat.
Proof. unfold fee_fetches. now rewrite filter_app, length_app. Qed.

Lemma fee_fetches_bind {A B} (m : M A) (k : A -> M B) :
  fee_fetches (trace_of (bind m k))
  = (fee_fetches (trace_of m)
     + match result_of m with
       | Returns a => fee_fetches (trace_of (k a))
       | Throws _ => 0
       end)%nat.
Proof.
  rewrite trace_bind. destruct (result_of m); [apply fee_fetches_app | lia].
Qed.

Lemma fee_fetches_pure {A} (m : M A) : pure m -> fee_fetches (trace_of m) = 0%nat.
Proof. unfold pure. now intros ->. Qed.

Lemma getInputs_fee_fetches (X : externals) (utxos : list UTXO) (amount : num)
    (feePerByte : jsval) :
  fee_fetches (trace_of (getInputs X utxos amount feePerByte)) = 0%nat.
Proof. now rewrite getInputs_trace. Qed.

(** The fee rate is fetched once when the argument is falsy and the outputs
    were rewritten, and not at all otherwise. *)
Lemma getInputsForAmount_fee_fetches (X : externals) (this : BitcoinLedgerProvider)
    (amount feePerByte : jsval) (n : Z) :
  fee_fetches (trace_of (getInputsForAmount X this amount feePerByte n))
  = match result_of (mapM (update_utxo (getAddressList X this n))
                       (getUnspentTransactions X (getAddressList X this n))) with
    | Returns _ => if truthy feePerByte then 0%nat else 1%nat
    | Throws _ => 0%nat
    end.
Proof.
  rewrite getInputsForAmount_unfold, fee_fetches_bind.
  cbn [log trace_of result_of fst snd fee_fetches filter List.length Nat.add].
  rewrite fee_fetches_bind.
  rewrite (fee_fetches_pure (mapM _ _)) by (apply pure_mapM; auto with js_pure).
  cbn [Nat.add].
  destruct (result_of (mapM _ _)) as [upd | e]; [ | reflexivity].
  rewrite fee_fetches_bind, fetch_rate_result, fee_fetches_bind, getInputs_fee_fetches.
  cbn [Nat.add].
  assert (Hrest : match result_of (getInputs X upd (ToNumber amount)
                                     (effective_rate X feePerByte)) with
                  | Returns a =>
                      fee_fetches
                        (trace_of
                           match r_inputs a with
                           | Some _ => ret a
                           | None =>
                               fixedResult <- getInputs X upd
                                 (num_sub (BigNumber amount) (BigNumber (r_fee a)))
                                 (effective_rate X feePerByte) ;;
                               match r_inputs fixedResult with
                               | Some _ => ret fixedResult
                               | None => throw "NOT_ENOUGHT_BALANCE"
                               end
                           end)
                  | Throws _ => 0%nat
                  end = 0%nat).
  { destruct (result_of (getInputs X upd (ToNumber amount) (effective_rate X feePerByte)))
      as [r | e]; [ | reflexivity].
    destruct (r_inputs r); [reflexivity | ].
    rewrite fee_fetches_bind, getInputs_fee_fetches. cbn [Nat.add].
    destruct (result_of (getInputs X upd _ (effective_rate X feePerByte)))
      as [r' | e']; [ | reflexivity].
    now destruct (r_inputs r'). }
  rewrite Hrest, Nat.add_0_r.
  now destruct (truthy feePerByte).
Qed.

(** ** The transaction assembler *)

Section Assembler.

Variable X : externals.
Variable this : BitcoinLedgerProvider.

Lemma getUnusedAddress_run (change : bool) (n : Z) :
  getUnusedAddress X this change n
  = (Returns (get_slot (snd (classifyUsedUnused
                               (getUnspentTransactions X (getAddressList X this n))
                               (getAddressList X this n))) change),
     [EvGetUnspentTransactions (getAddressList X this n)]).
Proof. reflexivity. Qed.

(** Whatever [getInputsForAmount] is given, each call it makes to
    coinselect is at the effective fee rate, and requests either the number
    its amount converts to or that amount less a fee. *)
Lemma getInputsForAmount_calls (amount feePerByte : jsval) (n : Z) :
  Forall (fun c =>
            call_rate c = effective_rate X feePerByte
            /\ (call_request c = main_request (ToNumber amount)
                \/ exists fee,
                     call_request c
                     = main_request (num_sub (BigNumber amount) (BigNumber fee))))
         (coinselect_calls (trace_of (getInputsForAmount X this amount feePerByte n))).
Proof.
  destruct (result_of (mapM (update_utxo (getAddressList X this n))
                         (getUnspentTransactions X (getAddressList X this n))))
    as [upd | e] eqn:Hupd.
  - destruct (getInputsForAmount_run X this amount feePerByte n upd Hupd) as [-> _].
    constructor; [split; [reflexivity | now left] | ].
    destruct (result_of (getInputs X upd (ToNumber amount) (effective_rate X feePerByte)))
      as [r | e']; [ | constructor].
    destruct (r_inputs r); constructor; [ | constructor].
    split; [reflexivity | right; now exists (r_fee r)].
  - rewrite getInputsForAmount_unfold, coinselect_calls_bind.
    cbn [log trace_of result_of fst snd coinselect_calls flat_map app].
    rewrite coinselect_calls_bind, Hupd.
    rewrite (coinselect_calls_pure (mapM _ _)) by (apply pure_mapM; auto with js_pure).
    constructor.
Qed.

(** The only calls [_buildTransaction] makes to coinselect are those of
    [getInputsForAmount], run on the array of outputs itself, without a fee
    rate and with the default batch size. *)
Lemma _buildTransaction_calls (outputs : jsval)
    (data : option (list (string * jsval))) (feePerByte : jsval) :
  coinselect_calls (trace_of (_buildTransaction X this outputs data feePerByte))
  = coinselect_calls (trace_of (getInputsForAmount X this outputs JUndefined 25)).
Proof.
  unfold _buildTransaction.
  rewrite coinselect_calls_bind, getUnusedAddress_run.
  cbn [trace_of result_of fst snd coinselect_calls flat_map app].
  rewrite coinselect_calls_bind.
  destruct (result_of (getInputsForAmount X this outputs JUndefined 25)) as [r | e];
    [ | apply app_nil_r].
  match goal with |- (_ ++ ?rest)%list = _ => assert (E : rest = []) end;
    [ | rewrite E; apply app_nil_r].
  destruct (r_inputs r) as [inputs | ]; [ | reflexivity].
  rewrite coinselect_calls_bind.
  rewrite (coinselect_calls_pure _ (pure_assembleLedgerOutputs _ _ _ _ _ _ _)).
  destruct (result_of _) as [[ledgerOutputs data'] | e]; [ | reflexivity].
  now destruct (get_slot _ _).
Qed.



(** What [ledgerOutputs] holds after lines 343-383: the metadata output
    when there is metadata, and the change output when [change] is truthy.
    The payment outputs are not in it. *)
Lemma assembleLedgerOutputs_result (outputs : jsval)
    (data : option (list (string * jsval))) (amount : num) (change : jsval)
    (unusedAddress : slot) (ledgerOutputs : list ledger_output)
    (data' : option (list (string * jsval))) :
  result_of (assembleLedgerOutputs X this outputs data amount change unusedAddress)
  = Returns (ledgerOutputs, data') ->
  ledgerOutputs
  = (match data with Some d => [metadata_output X d] | None => [] end
     ++ if truthy change then [change_output X this change unusedAddress] else [])%list.
Proof.
  unfold assembleLedgerOutputs. destruct data as [d | ]; rewrite result_bind;
    destruct (result_of (outputs_map _ _ _ _)) as [mapped | e]; try discriminate;
    cbn [ret result_of fst]; intros [= <- _]; now destruct (truthy change).
Qed.

Lemma serialized_values_bind {A B} (m : M A) (k : A -> M B) :
  serialized_values (trace_of (bind m k))
  = (serialized_values (trace_of m)
     ++ match result_of m with
        | Returns a => serialized_values (trace_of (k a))
        | Throws _ => []
        end)%list.
Proof.
  rewrite trace_bind. destruct (result_of m);
    [apply flat_map_app | now rewrite app_nil_r].
Qed.

Lemma serialized_values_pure {A} (m : M A) :
  pure m -> serialized_values (trace_of m) = [].
Proof. unfold pure. now intros ->. Qed.

Lemma getInputs_serialized (utxos : list UTXO) (amount : num) (feePerByte : jsval) :
  serialized_values (trace_of (getInputs X utxos amount feePerByte)) = [].
Proof. now rewrite getInputs_trace. Qed.

Lemma getInputsForAmount_serialized (amount feePerByte : jsval) (n : Z) :
  serialized_values (trace_of (getInputsForAmount X this amount feePerByte n)) = [].
Proof.
  rewrite getInputsForAmount_unfold, serialized_values_bind.
  cbn [log trace_of result_of fst snd serialized_values flat_map app].
  rewrite serialized_values_bind.
  rewrite (serialized_values_pure (mapM _ _)) by (apply pure_mapM; auto with js_pure).
  cbn [app].
  destruct (result_of (mapM _ _)) as [upd | e]; [ | reflexivity].
  rewrite serialized_values_bind, fetch_rate_result.
  replace (serialized_values
             (trace_of (if negb (truthy feePerByte)
                        then log EvGetFeePerByte ;;; ret (getFeePerByte X)
                        else ret feePerByte)))
    with (@nil jsval) by (now destruct (truthy feePerByte)).
  cbn [app]. rewrite serialized_values_bind, getInputs_serialized. cbn [app].
  destruct (result_of (getInputs X upd (ToNumber amount) (effective_rate X feePerByte)))
    as [r | e]; [ | reflexivity].
  destruct (r_inputs r); [reflexivity | ].
  rewrite serialized_values_bind, getInputs_serialized. cbn [app].
  destruct (result_of (getInputs X upd _ (effective_rate X feePerByte)))
    as [r' | e']; [ | reflexivity].
  now destruct (r_inputs r').
Qed.

(** What [_buildTransaction] hands to [serializeTransactionOutputs] is
    [{outputs}], made of its own argument. *)
Lemma _buildTransaction_serialized (outputs : jsval)
    (data : option (list (string * jsval))) (feePerByte : jsval) :
  Forall (fun tx => tx = JObject [("outputs", outputs)])
         (serialized_values (trace_of (_buildTransaction X this outputs data feePerByte))).
Proof.
  unfold _buildTransaction.
  rewrite serialized_values_bind, getUnusedAddress_run.
  cbn [trace_of result_of fst snd serialized_values flat_map app].
  rewrite serialized_values_bind, getInputsForAmount_serialized. cbn [app].
  destruct (result_of (getInputsForAmount X this outputs JUndefined 25)) as [r | e];
    [ | constructor].
  destruct (r_inputs r) as [inputs | ]; [ | constructor].
  rewrite serialized_values_bind.
  rewrite (serialized_values_pure _ (pure_assembleLedgerOutputs _ _ _ _ _ _ _)).
  cbn [app].
  destruct (result_of (assembleLedgerOutputs _ _ _ _ _ _ _))
    as [[ledgerOutputs data'] | e]; [ | constructor].
  destruct (get_slot _ _); cbn; repeat constructor.
Qed.

End Assembler.

Lemma ToNumber_array_of_objects (props : list (string * jsval)) (rest : list jsval) :
  ToNumber (JArray (JObject props :: rest)) = NaN
  /\ BigNumber (JArray (JObject props :: rest)) = NaN.
Proof.
  unfold ToNumber, BigNumber. cbn [ToString].
  destruct rest as [| o rest]; split; reflexivity.
Qed.


(** C1 on the code. [_buildTransaction] hands [getInputsForAmount] the
    array of outputs where an amount is expected, and [Number] of an array
    that starts with an object is NaN: every request made to coinselect is
    for NaN, whatever the values of the outputs. For one payment of 1000 to
    a wallet that holds 100000, the sum of the values is 1000, coinselect is
    asked twice for NaN, and the build ends with NOT_ENOUGHT_BALANCE. *)
Theorem buildTransaction_selects_against_NaN :
  (forall (X : externals) (this : BitcoinLedgerProvider)
          (props : list (string * jsval)) (rest : list jsval)
          (data : option (list (string * jsval))) (feePerByte : jsval),
      Forall (fun c => call_request c = main_request NaN)
        (coinselect_calls
           (trace_of (_buildTransaction X this (JArray (JObject props :: rest))
                        data feePerByte))))
  /\ sum_values [payment (JString "dest") (JNumber (Num 1000))] = Num 1000
  /\ map call_request
       (coinselect_calls
          (trace_of (buildTransaction
                       (example_externals [example_utxo "t0" "0/0" 100000])
                       (example_wallet "bech32")
                       (JString "dest") (JNumber (Num 1000)) None JUndefined)))
     = [main_request NaN; main_request NaN]
  /\ result_of (buildTransaction
                  (example_externals [example_utxo "t0" "0/0" 100000])
                  (example_wallet "bech32")
                  (JString "dest") (JNumber (Num 1000)) None JUndefined)
     = Throws "NOT_ENOUGHT_BALANCE".
Proof.
  split; [ | repeat split; vm_compute; reflexivity].
  intros X this props rest data feePerByte.
  rewrite _buildTransaction_calls.
  destruct (ToNumber_array_of_objects props rest) as [Hn Hb].
  eapply Forall_impl;
    [ | apply (getInputsForAmount_calls X this (JArray (JObject props :: rest)) JUndefined 25)].
  intros c [_ [H | [fee H]]]; rewrite H.
  - now rewrite Hn.
  - now rewrite Hb.
Qed.

(** C2 on the code. After the block that assembles [ledgerOutputs], the
    list holds the metadata output and the change output and none of the
    payment outputs, because [concat] does not change the array it is
    called on; and what is serialized and signed is [{outputs}], built from
    the argument of the method, not from [ledgerOutputs]. On the example
    wallet, one payment of 1000 with metadata and a change of 500 leaves two
    outputs in [ledgerOutputs]; and a build with metadata and no payment
    serializes an empty list of outputs. *)
Theorem buildTransaction_drops_the_assembled_outputs :
  (forall (X : externals) (this : BitcoinLedgerProvider) (outputs : jsval)
          (data : option (list (string * jsval))) (amount : num) (change : jsval)
          (unusedAddress : slot) (ledgerOutputs : list ledger_output)
          (data' : option (list (string * jsval))),
      result_of (assembleLedgerOutputs X this outputs data amount change unusedAddress)
      = Returns (ledgerOutputs, data') ->
      ledgerOutputs
      = (match data with Some d => [metadata_output X d] | None => [] end
         ++ if truthy change then [change_output X this change unusedAddress] else [])%list)
  /\ (forall (X : externals) (this : BitcoinLedgerProvider) (outputs : jsval)
             (data : option (list (string * jsval))) (feePerByte : jsval),
         Forall (fun tx => tx = JObject [("outputs", outputs)])
           (serialized_values
              (trace_of (_buildTransaction X this outputs data feePerByte))))
  /\ result_of (assembleLedgerOutputs (example_externals []) (example_wallet "bech32")
                  (JArray [payment (JString "dest") (JNumber (Num 1000))])
                  (Some [("eventName", JString "swap")])
                  (Num 1000) (JObject [("value", JNumber (Num 500))])
                  (Addr (example_Address "1/0" 0 true)))
     = Returns
         ([{| lo_amount := [0; 0; 0; 0; 0; 0; 0; 0];
              lo_script := [106; 74; 95; 115; 119; 97; 112] |};
           {| lo_amount := [244; 1; 0; 0; 0; 0; 0; 0];
              lo_script := [49; 47; 48] |}],
          Some [("inputAmount", JNumber (Num 1000)); ("eventName", JString "swap")])
  /\ serialized_values
       (trace_of (_buildTransaction
                    (example_externals [example_utxo "t0" "0/0" 100000])
                    (example_wallet "bech32") (JArray [])
                    (Some [("eventName", JString "swap")]) JUndefined))
     = [JObject [("outputs", JArray [])]].
Proof.
  split; [ | split; [ | split; vm_compute; reflexivity]].
  - intros X this outputs data amount change unusedAddress ledgerOutputs data'.
    apply assembleLedgerOutputs_result.
  - intros X this outputs data feePerByte. apply _buildTransaction_serialized.
Qed.



(* ================================================================== *)
(** * Further properties *)
(* ================================================================== *)

(** ** Derived addresses *)

Lemma Zrange_length (start n : Z) :
  List.length (Zrange start (start + n)) = Z.to_nat n.
Proof.
  unfold Zrange. rewrite length_map, length_seq. f_equal. lia.
Qed.

Lemma Zrange_nth (start n : Z) (k : nat) :
  (k < Z.to_nat n)%nat ->
  nth_error (Zrange start (start + n)) k = Some (start + Z.of_nat k).
Proof.
  intros Hk. unfold Zrange.
  replace (start + n - start) with n by lia.
  rewrite nth_error_map, nth_error_seq.
  destruct (Nat.ltb_spec k (Z.to_nat n)); [reflexivity | lia].
Qed.

Lemma getLedgerAddresses_map (X : externals) (this : BitcoinLedgerProvider)
    (startingIndex numAddresses : Z) (change : bool) :
  getLedgerAddresses X this startingIndex numAddresses change
  = map (address_at X this change) (Zrange startingIndex (startingIndex + numAddresses)).
Proof. reflexivity. Qed.

(** X1. [getLedgerAddresses(startingIndex, numAddresses, change)] returns
    [numAddresses] addresses (none when the count is zero or negative), and
    the one at position [k] is the address of the branch at index
    [startingIndex + k]: its index, its change flag, its path (the account
    path followed by branch/index) and its public key are those of that
    index. *)
Theorem getLedgerAddresses_index_coverage
    (X : externals) (this : BitcoinLedgerProvider)
    (startingIndex numAddresses : Z) (change : bool) :
  List.length (getLedgerAddresses X this startingIndex numAddresses change)
  = Z.to_nat numAddresses
  /\ forall k a,
       nth_error (getLedgerAddresses X this startingIndex numAddresses change) k = Some a ->
       (k < Z.to_nat numAddresses)%nat
       /\ a_index a = startingIndex + Z.of_nat k
       /\ a_change a = change
       /\ a_derivationPath a
          = this_derivationPath this ++ (if change then "1" else "0") ++ "/"
            ++ decimal (startingIndex + Z.of_nat k)
       /\ a_publicKey a
          = derivePublicKey X (this_derivationPath this)
              ((if change then "1" else "0") ++ "/" ++ decimal (startingIndex + Z.of_nat k))
       /\ a_address a = getAddressFromPublicKey X this (a_publicKey a).
Proof.
  rewrite getLedgerAddresses_map. split.
  - now rewrite length_map, Zrange_length.
  - intros k a Hnth.
    assert (Hk : (k < Z.to_nat numAddresses)%nat).
    { assert (Hsome : nth_error (map (address_at X this change)
                                   (Zrange startingIndex (startingIndex + numAddresses))) k
                      <> None) by congruence.
      apply nth_error_Some in Hsome.
      now rewrite length_map, Zrange_length in Hsome. }
    rewrite nth_error_map, Zrange_nth in Hnth by exact Hk.
    injection Hnth as <-. repeat split. exact Hk.
Qed.

Lemma getAddressList_map (X : externals) (this : BitcoinLedgerProvider) (n : Z) :
  getAddressList X this n
  = (map (address_at X this true) (Zrange 0 (0 + n))
     ++ map (address_at X this false) (Zrange 0 (0 + n)))%list.
Proof. reflexivity. Qed.

(** X2. [getAddressList(n)] holds [2n] addresses for a batch size [n] of at
    least 0: position [k] below [n] is the change address of index [k], and
    position [n + k] is the non-change address of index [k], so that index 0
    of the list is always a change address. *)
Theorem getAddressList_order
    (X : externals) (this : BitcoinLedgerProvider) (n : Z) :
  List.length (getAddressList X this n) = (2 * Z.to_nat n)%nat
  /\ forall k, (k < Z.to_nat n)%nat ->
       nth_error (getAddressList X this n) k
       = Some (address_at X this true (Z.of_nat k))
       /\ nth_error (getAddressList X this n) (Z.to_nat n + k)
          = Some (address_at X this false (Z.of_nat k)).
Proof.
  rewrite getAddressList_map. split.
  - rewrite length_app, !length_map, Zrange_length. lia.
  - intros k Hk. split.
    + rewrite nth_error_app1 by (now rewrite length_map, Zrange_length).
      now rewrite nth_error_map, Zrange_nth by exact Hk.
    + rewrite nth_error_app2 by (rewrite length_map, Zrange_length; lia).
      rewrite length_map, Zrange_length.
      replace (Z.to_nat n + k - Z.to_nat n)%nat with k by lia.
      now rewrite nth_error_map, Zrange_nth by exact Hk.
Qed.

(** ** Used and unused addresses *)

Lemma classifyUsedUnused_used (utxos : list UTXO) (addressList : list Address) :
  fst (classifyUsedUnused utxos addressList) = filter (is_used utxos) addressList.
Proof.
  unfold classifyUsedUnused.
  pose proof (classify_loop_used utxos addressList initial_state) as H.
  unfold initial_state in H.
  destruct (fold_left (classify_step utxos) addressList _) as [used unused].
  exact H.
Qed.

(** After the two fallbacks, a slot holds what the loop left in it, or
    index 0 of the list when the loop left it empty. *)
Lemma classifyUsedUnused_slot (utxos : list UTXO) (addressList : list Address)
    (key : bool) :
  get_slot (snd (classifyUsedUnused utxos addressList)) key
  = if slot_truthy (get_slot (snd (fold_left (classify_step utxos) addressList
                                     initial_state)) key)
    then get_slot (snd (fold_left (classify_step utxos) addressList initial_state)) key
    else first_address addressList.
Proof.
  unfold classifyUsedUnused. fold initial_state.
  destruct (fold_left (classify_step utxos) addressList initial_state)
    as [used [c n]].
  cbn [snd get_slot ua_change ua_nonChange].
  destruct key, c, n; reflexivity.
Qed.

(** X3. [getUsedAddresses(n)] asks the provider once, for the whole address
    list, and returns exactly the addresses of the list that have an output
    attributed to them, in the order of the list (change branch first). *)
Theorem getUsedAddresses_are_the_funded_addresses
    (X : externals) (this : BitcoinLedgerProvider) (n : Z) :
  getUsedAddresses X this n
  = (Returns (filter (is_used (getUnspentTransactions X (getAddressList X this n)))
                (getAddressList X this n)),
     [EvGetUnspentTransactions (getAddressList X this n)]).
Proof.
  unfold getUsedAddresses, getUsedUnusedAddresses.
  cbn [bind log ret fst snd app].
  now rewrite classifyUsedUnused_used.
Qed.

Lemma Zrange_first (n : Z) :
  0 < n -> exists rest, Zrange 0 (0 + n) = 0 :: rest.
Proof.
  intros Hn. unfold Zrange.
  destruct (Z.to_nat (0 + n - 0)) as [| k] eqn:E; [lia | ].
  cbn [seq map]. eexists. reflexivity.
Qed.

Lemma find_branch_none (X : externals) (this : BitcoinLedgerProvider)
    (key : bool) (indices : list Z) :
  find (fun b => Bool.eqb (a_change b) key)
       (map (address_at X this (negb key)) indices) = None.
Proof.
  induction indices as [| i l IH]; [reflexivity | ].
  cbn [map find address_at a_change]. now destruct key.
Qed.

Lemma first_of_branch_list (X : externals) (this : BitcoinLedgerProvider)
    (n : Z) (key : bool) :
  0 < n ->
  first_of_branch key (getAddressList X this n) = Addr (address_at X this key 0).
Proof.
  intros Hn. unfold first_of_branch. rewrite getAddressList_map.
  destruct (Zrange_first n Hn) as [rest ->].
  destruct key.
  - cbn [map app find address_at a_change Bool.eqb]. reflexivity.
  - rewrite find_app, (find_branch_none X this false). reflexivity.
Qed.

Lemma first_address_list (X : externals) (this : BitcoinLedgerProvider) (n : Z) :
  0 < n ->
  first_address (getAddressList X this n) = Addr (address_at X this true 0).
Proof.
  intros Hn. rewrite getAddressList_map.
  now destruct (Zrange_first n Hn) as [rest ->].
Qed.

Lemma filter_none {A} (f : A -> bool) (l : list A) :
  (forall a, In a l -> f a = false) -> filter f l = [].
Proof.
  induction l as [| a l IH]; intros H; [reflexivity | ].
  cbn. rewrite (H a (or_introl eq_refl)). apply IH.
  intros b Hb. apply H. now right.
Qed.

(** X4. On an account none of whose scanned addresses has an output, and
    for a batch size of at least 1, [getUsedUnusedAddresses] returns no used
    address, and as unused addresses the index 0 of each branch. *)
Theorem getUsedUnusedAddresses_fresh_account
    (X : externals) (this : BitcoinLedgerProvider) (n : Z) :
  0 < n ->
  (forall a, In a (getAddressList X this n) ->
             is_used (getUnspentTransactions X (getAddressList X this n)) a = false) ->
  getUsedUnusedAddresses X this n
  = (Returns ([], {| ua_change := Addr (address_at X this true 0);
                     ua_nonChange := Addr (address_at X this false 0) |}),
     [EvGetUnspentTransactions (getAddressList X this n)]).
Proof.
  intros Hn Hfresh. unfold getUsedUnusedAddresses. cbn [bind log ret fst snd app].
  set (l := getAddressList X this n) in *.
  set (utxos := getUnspentTransactions X l) in *.
  assert (Hslot : forall key,
             get_slot (snd (classifyUsedUnused utxos l)) key
             = Addr (address_at X this key 0)).
  { intros key. rewrite classifyUsedUnused_slot.
    rewrite (classify_loop_no_used utxos key l initial_state);
      [ | intros b Hb _; now apply Hfresh | now destruct key].
    replace (slot_truthy (get_slot (snd initial_state) key)) with false
      by now destruct key.
    unfold l. rewrite first_of_branch_list by exact Hn. reflexivity. }
  pose proof (classifyUsedUnused_used utxos l) as Hused.
  rewrite (filter_none _ _ Hfresh) in Hused.
  destruct (classifyUsedUnused utxos l) as [used [c nc]].
  pose proof (Hslot true) as Hc. pose proof (Hslot false) as Hnc.
  cbn in Hused, Hc, Hnc. now subst.
Qed.

Lemma getUsedUnusedAddresses_fresh_account_witness :
  getUsedUnusedAddresses (example_externals []) (example_wallet "bech32") 5
  = (Returns ([], {| ua_change :=
                       Addr (address_at (example_externals []) (example_wallet "bech32") true 0);
                     ua_nonChange :=
                       Addr (address_at (example_externals []) (example_wallet "bech32") false 0) |}),
     [EvGetUnspentTransactions
        (getAddressList (example_externals []) (example_wallet "bech32") 5)]).
Proof.
  exact (getUsedUnusedAddresses_fresh_account (example_externals [])
           (example_wallet "bech32") 5 eq_refl (fun a _ => eq_refl)).
Defined.

Lemma first_of_branch_none (key : bool) (l : list Address) :
  (forall b, In b l -> a_change b <> key) -> first_of_branch key l = Null.
Proof.
  intros H. unfold first_of_branch.
  destruct (find _ l) as [b | ] eqn:E; [ | reflexivity].
  apply find_some in E as [Hin Heq]. apply eqb_prop in Heq.
  now contradiction (H b Hin).
Qed.

(** When the last address of a branch in the list is used, the loop leaves
    the slot of the branch empty. *)
Lemma classify_loop_last_used (utxos : list UTXO) (pre post : list Address)
    (a : Address) (st : list Address * unusedAddress_t) :
  is_used utxos a = true ->
  (forall b, In b post -> a_change b <> a_change a) ->
  get_slot (snd (fold_left (classify_step utxos) (pre ++ a :: post) st)) (a_change a)
  = Null.
Proof.
  intros Hu Hpost. rewrite fold_left_app. cbn [fold_left].
  rewrite classify_loop_no_used.
  - rewrite classify_step_used by exact Hu. cbn [snd].
    rewrite get_set_slot_same. cbn [slot_truthy].
    now apply first_of_branch_none.
  - intros b Hb Heq. now contradiction (Hpost b Hb).
  - rewrite classify_step_used by exact Hu. cbn [snd].
    now rewrite get_set_slot_same.
Qed.

Lemma Zrange_last (n : Z) :
  0 < n -> Zrange 0 (0 + n) = (Zrange 0 (0 + (n - 1)) ++ [n - 1])%list.
Proof.
  intros Hn.
  replace (0 + n) with (0 + ((n - 1) + 1)) by lia.
  rewrite Zrange_split by lia. f_equal.
  unfold Zrange. replace (0 + (n - 1) + 1 - (0 + (n - 1))) with 1 by lia.
  change (Z.to_nat 1) with 1%nat. cbn [seq map]. f_equal. lia.
Qed.

(** X5. When the last scanned address of a branch (index [n - 1]) has an
    output, [getUnusedAddress] finds no unused address for that branch and
    returns index 0 of the address list, which is the change address of
    index 0: asked for the non-change branch, it then returns an address of
    the change branch. *)
Theorem getUnusedAddress_falls_back_to_first_change_address
    (X : externals) (this : BitcoinLedgerProvider) (change : bool) (n : Z) :
  0 < n ->
  is_used (getUnspentTransactions X (getAddressList X this n))
          (address_at X this change (n - 1)) = true ->
  getUnusedAddress X this change n
  = (Returns (Addr (address_at X this true 0)),
     [EvGetUnspentTransactions (getAddressList X this n)]).
Proof.
  intros Hn Hused. unfold getUnusedAddress, getUsedUnusedAddresses.
  cbn [bind log ret fst snd app]. do 2 f_equal.
  rewrite classifyUsedUnused_slot.
  set (utxos := getUnspentTransactions X (getAddressList X this n)) in *.
  assert (Hnull : get_slot (snd (fold_left (classify_step utxos)
                                   (getAddressList X this n) initial_state)) change
                  = Null).
  { rewrite getAddressList_map, (Zrange_last n Hn), !map_app. cbn [map].
    destruct change.
    - rewrite <- app_assoc. cbn [app].
      apply (classify_loop_last_used utxos _ _ (address_at X this true (n - 1)));
        [exact Hused | ].
      intros b Hb. apply in_app_or in Hb as [Hb | [<- | []]];
        [apply in_map_iff in Hb as (i & <- & _) | ]; discriminate.
    - rewrite app_assoc.
      apply (classify_loop_last_used utxos _ [] (address_at X this false (n - 1)));
        [exact Hused | intros b []]. }
  rewrite Hnull. cbn [slot_truthy].
  now apply first_address_list.
Qed.

Lemma getUnusedAddress_falls_back_to_first_change_address_witness :
  getUnusedAddress (example_externals [example_utxo "t" "0/1" 5000])
    (example_wallet "bech32") false 2
  = (Returns (Addr (example_Address "1/0" 0 true)),
     [EvGetUnspentTransactions
        (getAddressList (example_externals [example_utxo "t" "0/1" 5000])
           (example_wallet "bech32") 2)]).
Proof.
  exact (getUnusedAddress_falls_back_to_first_change_address
           (example_externals [example_utxo "t" "0/1" 5000])
           (example_wallet "bech32") false 2 eq_refl eq_refl).
Defined.

(** ** Looking an address up *)

(** X6. When the batch size is positive and [maxAddresses] is a multiple of
    it, [getWalletAddress] ends (after at most two passes of
    [maxAddresses / addressesPerCall] windows) and returns the first address
    equal to the target among the non-change addresses of index below
    [maxAddresses] followed by the change addresses of index below
    [maxAddresses]; it throws ADDRESS_MISSING_IN_LEDGER when none is. *)
Theorem getWalletAddress_scans_both_branches
    (X : externals) (this : BitcoinLedgerProvider) (address : string)
    (maxAddresses addressesPerCall : Z) (windows fuel : nat) :
  0 < addressesPerCall ->
  maxAddresses = Z.of_nat windows * addressesPerCall ->
  (2 * windows <= fuel)%nat ->
  getWalletAddress X this fuel address maxAddresses addressesPerCall
  = Some match find (fun addr => Address_equals addr address)
                 (getAddresses X this 0 maxAddresses false
                  ++ getAddresses X this 0 maxAddresses true) with
         | Some addr => Returns addr
         | None => Throws "ADDRESS_MISSING_IN_LEDGER"
         end.
Proof.
  intros Hper -> Hfuel.
  now apply getWalletAddress_when_batch_divides.
Qed.

Lemma getWalletAddress_scans_both_branches_witness :
  getWalletAddress (example_externals []) (example_wallet "bech32") 6 "1/2" 6 2
  = Some (Returns (example_Address "1/2" 2 true))
  /\ getWalletAddress (example_externals []) (example_wallet "bech32") 6 "1/7" 6 2
     = Some (Throws "ADDRESS_MISSING_IN_LEDGER").
Proof.
  split.
  - exact (getWalletAddress_scans_both_branches (example_externals [])
             (example_wallet "bech32") "1/2" 6 2 3 6 eq_refl eq_refl
             (le_n 6)).
  - exact (getWalletAddress_scans_both_branches (example_externals [])
             (example_wallet "bech32") "1/7" 6 2 3 6 eq_refl eq_refl
             (le_n 6)).
Defined.

Lemma getAddresses_nonpositive (X : externals) (this : BitcoinLedgerProvider)
    (startingIndex numAddresses : Z) (change : bool) :
  numAddresses <= 0 -> getAddresses X this startingIndex numAddresses change = [].
Proof.
  intros Hn. unfold getAddresses, getLedgerAddresses, Zrange.
  now replace (Z.to_nat (startingIndex + numAddresses - startingIndex)) with 0%nat by lia.
Qed.

Lemma getWalletAddress_loop_stuck (X : externals) (this : BitcoinLedgerProvider)
    (address : string) (maxAddresses addressesPerCall : Z) (fuel : nat) (index : Z) :
  0 < maxAddresses -> addressesPerCall <= 0 -> index <= 0 ->
  getWalletAddress_loop X this fuel address maxAddresses addressesPerCall index false
  = None.
Proof.
  intros Hmax Hper. revert index.
  induction fuel as [| fuel IH]; intros index Hindex; cbn [getWalletAddress_loop];
    (destruct (Z.ltb_spec index maxAddresses); [ | lia]); [reflexivity | ].
  rewrite getAddresses_nonpositive by exact Hper. cbn [find].
  replace (index + addressesPerCall =? maxAddresses) with false
    by (symmetry; apply Z.eqb_neq; lia).
  apply IH. lia.
Qed.

(** X7. With a batch size of zero or less and a positive [maxAddresses],
    [getWalletAddress] never ends: each pass derives no address and leaves
    [index] at or below 0, so whatever the number of passes allowed, the
    loop has neither returned nor thrown. *)
Theorem getWalletAddress_nonpositive_batch_never_ends
    (X : externals) (this : BitcoinLedgerProvider) (address : string)
    (maxAddresses addressesPerCall : Z) (fuel : nat) :
  0 < maxAddresses -> addressesPerCall <= 0 ->
  getWalletAddress X this fuel address maxAddresses addressesPerCall = None.
Proof.
  intros Hmax Hper. unfold getWalletAddress.
  apply getWalletAddress_loop_stuck; [assumption | assumption | lia].
Qed.

Lemma getWalletAddress_nonpositive_batch_never_ends_witness :
  getWalletAddress (example_externals []) (example_wallet "bech32") 1000 "0/0" 10 (-5)
  = None.
Proof.
  apply getWalletAddress_nonpositive_batch_never_ends; lia.
Defined.

(** ** The balance *)

Lemma num_add_assoc (a b c : num) :
  num_add (num_add a b) c = num_add a (num_add b c).
Proof. destruct a, b, c; cbn; try reflexivity. f_equal. lia. Qed.

Lemma balance_fold (utxos : list UTXO) (start : num) :
  fold_left (fun prev curr => num_add prev (BigNumber_from_number (u_value curr)))
    utxos start
  = num_add start
      (fold_right (fun u acc => num_add (BigNumber_from_number (u_value u)) acc)
         (Num 0) utxos).
Proof.
  revert start. induction utxos as [| u l IH]; intros start; cbn [fold_left fold_right].
  - destruct start; cbn; [reflexivity | f_equal; lia].
  - rewrite IH. apply num_add_assoc.
Qed.

Lemma decimal_total_numbers (utxos : list UTXO) :
  (forall u, In u utxos -> u_value u <> NaN) ->
  fold_right (fun u acc => num_add (BigNumber_from_number (u_value u)) acc) (Num 0) utxos
  = Num (decimal_total utxos).
Proof.
  induction utxos as [| u l IH]; intros H; [reflexivity | ].
  cbn [decimal_total fold_right]. fold (decimal_total l).
  rewrite IH by (intros v Hv; apply H; now right).
  pose proof (H u (or_introl eq_refl)) as Hu.
  destruct (u_value u); [now contradiction Hu | reflexivity].
Qed.

Lemma decimal_total_NaN (utxos : list UTXO) (u : UTXO) :
  In u utxos -> u_value u = NaN ->
  fold_right (fun u acc => num_add (BigNumber_from_number (u_value u)) acc) (Num 0) utxos
  = NaN.
Proof.
  induction utxos as [| v l IH]; intros Hin Hu; [contradiction | ].
  cbn [fold_right].
  destruct Hin as [-> | Hin].
  - now rewrite Hu.
  - rewrite IH by assumption. now destruct (BigNumber_from_number (u_value v)).
Qed.

Lemma decimal_total_exact (utxos : list UTXO) :
  exact_values utxos -> decimal_total utxos = satoshi utxos.
Proof.
  unfold exact_values.
  induction utxos as [| u l IH]; intros H; [reflexivity | ].
  cbn [decimal_total satoshi fold_right]. fold (decimal_total l). fold (satoshi l).
  rewrite IH by (intros v Hv; apply H; now right).
  destruct (H u (or_introl eq_refl)) as (z & -> & Hz).
  now rewrite Number_text_small by exact Hz.
Qed.

(** X8. [getBalance(n)] asks the provider once, for the [2n] addresses of
    the list, and adds up the [value] of every output reported, whether or
    not its address counts as used. bignumber.js adds the decimal texts of
    the values, and [toNumber] returns the double nearest to their sum: the
    sum itself when every value and the sum are at most 2^53 in magnitude,
    a rounded sum beyond that, and NaN as soon as one value is NaN. *)
Theorem getBalance_is_the_sum_of_values
    (X : externals) (this : BitcoinLedgerProvider) (n : Z) :
  trace_of (getBalance X this n) = [EvGetUnspentTransactions (getAddressList X this n)]
  /\ ((forall u, In u (getUnspentTransactions X (getAddressList X this n)) ->
                 u_value u <> NaN) ->
      result_of (getBalance X this n)
      = Returns (Num (Number_value
                        (decimal_total (getUnspentTransactions X (getAddressList X this n))))))
  /\ (exact_values (getUnspentTransactions X (getAddressList X this n)) ->
      Z.abs (satoshi (getUnspentTransactions X (getAddressList X this n))) <= 2 ^ 53 ->
      result_of (getBalance X this n)
      = Returns (Num (satoshi (getUnspentTransactions X (getAddressList X this n)))))
  /\ (forall u, In u (getUnspentTransactions X (getAddressList X this n)) ->
                u_value u = NaN ->
                result_of (getBalance X this n) = Returns NaN).
Proof.
  unfold getBalance. cbn [bind log ret fst snd app result_of trace_of].
  rewrite balance_fold.
  split; [reflexivity | split; [ | split]].
  - intros H. now rewrite decimal_total_numbers by exact H.
  - intros Hexact Hsum.
    rewrite decimal_total_numbers
      by (intros u Hu; destruct (Hexact u Hu) as (z & -> & _); discriminate).
    rewrite decimal_total_exact by exact Hexact.
    cbn [num_add Z.add BigNumber_toNumber].
    now rewrite Number_value_small by exact Hsum.
  - intros u Hin Hu. now rewrite (decimal_total_NaN _ u Hin Hu).
Qed.

(** Two outputs of 2^53 and 1 satoshi: their sum, 2^53 + 1, is no double,
    and the balance returned is 2^53. *)
Lemma getBalance_is_the_sum_of_values_witness :
  satoshi [example_utxo "t0" "0/0" (2 ^ 53); example_utxo "t1" "0/1" 1] = 2 ^ 53 + 1
  /\ result_of (getBalance
                  (reporting (example_externals [])
                     [example_utxo "t0" "0/0" (2 ^ 53); example_utxo "t1" "0/1" 1])
                  (example_wallet "bech32") 5)
     = Returns (Num (2 ^ 53)).
Proof.
  split; [reflexivity | ].
  rewrite (proj1 (proj2 (getBalance_is_the_sum_of_values
                           (reporting (example_externals [])
                              [example_utxo "t0" "0/0" (2 ^ 53); example_utxo "t1" "0/1" 1])
                           (example_wallet "bech32") 5))).
  - vm_compute. reflexivity.
  - intros u [<- | [<- | []]]; discriminate.
Defined.

(** ** Coin selection: the other paths of [getInputsForAmount] *)

(** X9. When the first selection attempt of [getInputsForAmount] returns
    inputs, its result is returned as it is and no retry is made: coinselect
    is called exactly once, for [Number(amount)] at the effective fee
    rate. *)
Theorem getInputsForAmount_first_attempt_succeeds
    (X : externals) (this : BitcoinLedgerProvider)
    (amount feePerByte : jsval) (numAddressPerCall : Z)
    (updatedUtxos : list UTXO) (first : inputs_result) (inputs : list UTXO) :
  result_of (mapM (update_utxo (getAddressList X this numAddressPerCall))
               (getUnspentTransactions X (getAddressList X this numAddressPerCall)))
  = Returns updatedUtxos ->
  result_of (getInputs X updatedUtxos (ToNumber amount) (effective_rate X feePerByte))
  = Returns first ->
  r_inputs first = Some inputs ->
  coinselect_calls
    (trace_of (getInputsForAmount X this amount feePerByte numAddressPerCall))
  = [(updatedUtxos, main_request (ToNumber amount), effective_rate X feePerByte)]
  /\ result_of (getInputsForAmount X this amount feePerByte numAddressPerCall)
     = Returns first.
Proof.
  intros Hupd Hfirst Hinputs.
  destruct (getInputsForAmount_run X this amount feePerByte numAddressPerCall
              updatedUtxos Hupd) as [Hcalls Hres].
  rewrite Hfirst, Hinputs in Hcalls, Hres. now split.
Qed.

Lemma getInputsForAmount_first_attempt_succeeds_witness :
  coinselect_calls
    (trace_of (getInputsForAmount
                 (example_externals [example_utxo "t0" "0/0" 100000])
                 (example_wallet "bech32") (JNumber (Num 1000)) (JNumber (Num 10)) 2))
  = [([{| u_txid := "t0"; u_vout := 0; u_address := "0/0"; u_amount := 100000;
          u_value := Num 100000; u_derivationPath := Some "84'/0'/0'/0/0" |}],
      main_request (Num 1000), JNumber (Num 10))]
  /\ result_of (getInputsForAmount
                  (example_externals [example_utxo "t0" "0/0" 100000])
                  (example_wallet "bech32") (JNumber (Num 1000)) (JNumber (Num 10)) 2)
     = Returns
         {| r_inputs :=
              Some [{| u_txid := "t0"; u_vout := 0; u_address := "0/0";
                       u_amount := 100000; u_value := Num 100000;
                       u_derivationPath := Some "84'/0'/0'/0/0" |}];
            r_change := JObject [("value", JNumber (Num 97000))];
            r_fee := JNumber (Num 2000);
            r_amount := Num 1000 |}.
Proof.
  exact (getInputsForAmount_first_attempt_succeeds
           (example_externals [example_utxo "t0" "0/0" 100000])
           (example_wallet "bech32") (JNumber (Num 1000)) (JNumber (Num 10)) 2
           [{| u_txid := "t0"; u_vout := 0; u_address := "0/0"; u_amount := 100000;
               u_value := Num 100000; u_derivationPath := Some "84'/0'/0'/0/0" |}]
           _ _ eq_refl eq_refl eq_refl).
Defined.

Lemma mapM_result_throws {A B} (f : A -> M B) (l : list A) (x : A) (e : string) :
  In x l ->
  (forall y, In y l -> forall e', result_of (f y) = Throws e' -> e' = e) ->
  result_of (f x) = Throws e ->
  result_of (mapM f l) = Throws e.
Proof.
  induction l as [| y l IH]; intros Hin Hall Hx; [contradiction | ].
  cbn [mapM]. rewrite result_bind.
  destruct (result_of (f y)) as [b | e'] eqn:Ey.
  - destruct Hin as [-> | Hin]; [congruence | ].
    rewrite result_bind, IH; [reflexivity | exact Hin | | exact Hx].
    intros z Hz. apply Hall. now right.
  - f_equal. apply (Hall y (or_introl eq_refl)). exact Ey.
Qed.

Lemma update_utxo_throws (addrList : list Address) (utxo : UTXO) (e : string) :
  result_of (update_utxo addrList utxo) = Throws e -> e = "TypeError".
Proof.
  unfold update_utxo. destruct (find _ addrList); cbn; [discriminate | congruence].
Qed.

(** X10. When the provider reports an output whose address is none of the
    scanned addresses, [getInputsForAmount] throws a TypeError (it reads the
    derivation path of an address it did not find): it has asked the
    provider for the outputs and nothing else, neither a fee rate nor a
    selection. *)
Theorem getInputsForAmount_foreign_output
    (X : externals) (this : BitcoinLedgerProvider)
    (amount feePerByte : jsval) (numAddressPerCall : Z) (utxo : UTXO) :
  In utxo (getUnspentTransactions X (getAddressList X this numAddressPerCall)) ->
  (forall a, In a (getAddressList X this numAddressPerCall) ->
             Address_equals a (u_address utxo) = false) ->
  getInputsForAmount X this amount feePerByte numAddressPerCall
  = (Throws "TypeError",
     [EvGetUnspentTransactions (getAddressList X this numAddressPerCall)]).
Proof.
  intros Hin Hforeign.
  set (l := getAddressList X this numAddressPerCall) in *.
  assert (Hthrow : result_of (mapM (update_utxo l) (getUnspentTransactions X l))
                   = Throws "TypeError").
  { apply (mapM_result_throws _ _ utxo); [exact Hin | | ].
    - intros y _ e'. apply update_utxo_throws.
    - unfold update_utxo.
      destruct (find _ l) as [a | ] eqn:E; [ | reflexivity].
      apply find_some in E as [Ha Heq]. now rewrite (Hforeign a Ha) in Heq. }
  rewrite (surjective_pairing (getInputsForAmount X this amount feePerByte numAddressPerCall)).
  fold (result_of (getInputsForAmount X this amount feePerByte numAddressPerCall)).
  fold (trace_of (getInputsForAmount X this amount feePerByte numAddressPerCall)).
  rewrite getInputsForAmount_unfold. fold l.
  rewrite result_bind, trace_bind. cbn [log result_of trace_of fst snd].
  rewrite result_bind, trace_bind, Hthrow.
  now rewrite (pure_mapM _ _ (pure_update_utxo l)).
Qed.

Lemma getInputsForAmount_foreign_output_witness :
  getInputsForAmount
    (reporting (example_externals []) [example_utxo "t9" "elsewhere" 700])
    (example_wallet "bech32") (JNumber (Num 500)) JUndefined 1
  = (Throws "TypeError",
     [EvGetUnspentTransactions
        [example_Address "1/0" 0 true; example_Address "0/0" 0 false]]).
Proof.
  refine (getInputsForAmount_foreign_output
            (reporting (example_externals []) [example_utxo "t9" "elsewhere" 700])
            (example_wallet "bech32")
            (JNumber (Num 500)) JUndefined 1 (example_utxo "t9" "elsewhere" 700)
            (or_introl eq_refl) _).
  intros a [<- | [<- | []]]; reflexivity.
Defined.

(** X11. A fee rate that is passed to [getInputsForAmount] and is truthy is
    used as it is: the provider is not asked for its rate, and every call to
    coinselect is at the rate passed. *)
Theorem getInputsForAmount_uses_the_rate_passed
    (X : externals) (this : BitcoinLedgerProvider)
    (amount feePerByte : jsval) (numAddressPerCall : Z) :
  truthy feePerByte = true ->
  fee_fetches (trace_of (getInputsForAmount X this amount feePerByte numAddressPerCall))
  = 0%nat
  /\ Forall (fun c => call_rate c = feePerByte)
       (coinselect_calls
          (trace_of (getInputsForAmount X this amount feePerByte numAddressPerCall))).
Proof.
  intros Htruthy. split.
  - rewrite getInputsForAmount_fee_fetches, Htruthy.
    now destruct (result_of (mapM _ _)).
  - eapply Forall_impl;
      [ | apply (getInputsForAmount_calls X this amount feePerByte numAddressPerCall)].
    intros c [H _]. unfold effective_rate in H. now rewrite Htruthy in H.
Qed.

Lemma getInputsForAmount_uses_the_rate_passed_witness :
  fee_fetches
    (trace_of (getInputsForAmount (example_externals [example_utxo "t0" "0/0" 100000])
                 (example_wallet "bech32") (JNumber (Num 1000)) (JNumber (Num 3)) 2))
  = 0%nat
  /\ map call_rate
       (coinselect_calls
          (trace_of (getInputsForAmount
                       (example_externals [example_utxo "t0" "0/0" 100000])
                       (example_wallet "bech32") (JNumber (Num 1000)) (JNumber (Num 3)) 2)))
     = [JNumber (Num 3)].
Proof.
  split; [ | reflexivity].
  exact (proj1 (getInputsForAmount_uses_the_rate_passed
                  (example_externals [example_utxo "t0" "0/0" 100000])
                  (example_wallet "bech32") (JNumber (Num 1000)) (JNumber (Num 3)) 2
                  eq_refl)).
Defined.




(** ** Hexadecimal text and amount buffers beyond their nominal range *)

Lemma string_length_app (s t : string) :
  String.length (s ++ t) = (String.length s + String.length t)%nat.
Proof. induction s as [| c s IH]; cbn; [reflexivity | now rewrite IH]. Qed.

Lemma repeat_char_length (c : ascii) (n : nat) :
  String.length (repeat_char c n) = n.
Proof. induction n as [| n IH]; cbn; [reflexivity | now rewrite IH]. Qed.

(** X13. [padHexStart] never drops a character: its result is [hex] with
    zeros in front. When [hex] is not longer than the length asked for (the
    length of [hex] itself when 0 is passed), the result has that length
    rounded up to an even number, so that it decodes to whole bytes. *)
Theorem padHexStart_pads_to_an_even_length (hex : string) (length : Z) :
  (exists k, padHexStart hex length = repeat_char "0" k ++ hex)
  /\ (0 <= length ->
      Z.of_nat (String.length hex)
      <= (if length =? 0 then Z.of_nat (String.length hex) else length) ->
      Z.of_nat (String.length (padHexStart hex length))
      = (if length =? 0 then Z.of_nat (String.length hex) else length)
        + (if length =? 0 then Z.of_nat (String.length hex) else length) mod 2
      /\ Nat.even (String.length (padHexStart hex length)) = true).
Proof.
  split; [unfold padHexStart, padStart; eexists; reflexivity | ].
  intros Hlen Hfit. unfold padHexStart, padStart.
  set (len := if length =? 0 then Z.of_nat (String.length hex) else length) in *.
  assert (Hpos : 0 <= len) by (unfold len; destruct (length =? 0); lia).
  rewrite Z.rem_mod_nonneg by lia.
  pose proof (Z.mod_pos_bound len 2 ltac:(lia)) as Hmod.
  rewrite string_length_app, repeat_char_length.
  assert (Hsize : Z.of_nat (Z.to_nat (len + len mod 2 - Z.of_nat (String.length hex))
                            + String.length hex) = len + len mod 2) by lia.
  split; [exact Hsize | ].
  rewrite <- (Nat2Z.id (_ + String.length hex)), Hsize.
  replace (len + len mod 2) with (2 * ((len + len mod 2) / 2)).
  - rewrite Z2Nat.inj_mul by (try lia; apply Z.div_pos; lia).
    change (Z.to_nat 2) with 2%nat. apply Nat.even_even.
  - symmetry. apply Z.div_exact; [lia | ].
    rewrite Z.add_mod, Z.mod_mod by lia.
    assert (E : len mod 2 = 0 \/ len mod 2 = 1) by lia.
    destruct E as [-> | ->]; reflexivity.
Qed.

Lemma little_endian_S (m : nat) (z : Z) :
  little_endian (S m) z
  = (little_endian m z ++ [(z / 256 ^ Z.of_nat m) mod 256])%list.
Proof. unfold little_endian. now rewrite seq_S, map_app. Qed.

(** An even number of digits, followed by at most one more character,
    decodes to the bytes of the number, most significant first. *)
Lemma Buffer_from_hex_even_digits (m : nat) (z : Z) (tail : list ascii) :
  (List.length tail <= 1)%nat ->
  Buffer_from_hex (string_of_list_ascii (hexDigits (2 * m) z ++ tail))
  = rev (little_endian m z).
Proof.
  intros Htail. induction m as [| m IH].
  - cbn [Nat.mul hexDigits seq rev map app little_endian].
    destruct tail as [| c [| c' tail]]; [reflexivity | reflexivity | cbn in Htail; lia].
  - replace (2 * S m)%nat with (S (S (2 * m))) by lia.
    rewrite !hexDigits_S. cbn [app string_of_list_ascii Buffer_from_hex].
    rewrite !hexVal_hexDigit by (apply Z.mod_pos_bound; lia).
    rewrite IH, little_endian_S, rev_app_distr. cbn [rev app]. f_equal.
    replace (Z.of_nat (S (2 * m))) with (Z.of_nat (2 * m) + 1) by lia.
    rewrite Z.pow_add_r, Z.pow_1_r by lia.
    replace (16 ^ Z.of_nat (2 * m) * 16) with (16 * 16 ^ Z.of_nat (2 * m)) by lia.
    rewrite byte_of_hex_digits by (apply Z.pow_pos_nonneg; lia).
    do 2 f_equal.
    rewrite Nat2Z.inj_mul, Z.pow_mul_r by lia. reflexivity.
Qed.

Lemma hexDigits_low (k : nat) (z : Z) :
  hexDigits (S k) z = (hexDigits k (z / 16) ++ [hexDigit (z mod 16)])%list.
Proof.
  induction k as [| k IH].
  - cbn. now rewrite Z.div_1_r.
  - rewrite hexDigits_S, IH, (hexDigits_S k (z / 16)). cbn [app]. f_equal.
    rewrite Z.div_div by (try lia; apply Z.pow_pos_nonneg; lia).
    replace (16 * 16 ^ Z.of_nat k) with (16 ^ Z.of_nat (S k)); [reflexivity | ].
    rewrite Nat2Z.inj_succ, Z.pow_succ_r by lia. reflexivity.
Qed.

Lemma hexLength_lower (z : Z) (k : nat) :
  16 ^ Z.of_nat k <= z -> (S k <= hexLength z)%nat.
Proof.
  intros Hz.
  assert (H0 : 0 < 16 ^ Z.of_nat k) by (apply Z.pow_pos_nonneg; lia).
  pose proof (hexLength_spec z ltac:(lia)) as Hspec.
  destruct (Nat.le_gt_cases (S k) (hexLength z)) as [H | H]; [exact H | ].
  assert (16 ^ Z.of_nat (hexLength z) <= 16 ^ Z.of_nat k)
    by (apply Z.pow_le_mono_r; lia).
  lia.
Qed.

(** A hexadecimal text of 16 digits or more is not padded: the bytes are
    those of its digits, less the last one when their number is odd. *)
Lemma unpadded_amount_bytes (t : Z) :
  0 <= t -> (16 <= hexLength t)%nat ->
  rev (Buffer_from_hex (padHexStart (toString16 (Num t)) 16))
  = little_endian (Nat.div2 (hexLength t))
      (t / (if Nat.odd (hexLength t) then 16 else 1)).
Proof.
  intros Ht Hn. unfold toString16.
  destruct (Z.ltb_spec t 0) as [Hneg | _]; [lia | ].
  unfold padHexStart, padStart. change (16 =? 0) with false. cbv iota.
  change (16 + Z.rem 16 2) with 16.
  rewrite string_of_list_length, hexDigits_length.
  replace (Z.to_nat (16 - Z.of_nat (hexLength t))) with 0%nat by lia.
  cbn [repeat_char append].
  destruct (Nat.Even_or_Odd (hexLength t)) as [[m Hm] | [m Hm]]; rewrite Hm.
  - rewrite Nat.div2_double.
    replace (Nat.odd (2 * m)) with false
      by (symmetry; rewrite <- Nat.negb_even, Nat.even_even; reflexivity).
    rewrite Z.div_1_r.
    rewrite <- (app_nil_r (hexDigits (2 * m) t)).
    rewrite Buffer_from_hex_even_digits by (cbn; lia).
    apply rev_involutive.
  - replace (2 * m + 1)%nat with (S (2 * m)) by lia.
    rewrite Nat.div2_succ_double.
    replace (Nat.odd (S (2 * m))) with true
      by (symmetry; rewrite Nat.odd_succ; apply Nat.even_even).
    rewrite hexDigits_low, Buffer_from_hex_even_digits by (cbn; lia).
    apply rev_involutive.
Qed.

(** X14. An amount of 2^64 or more is not refused. bignumber.js reads the
    decimal text of the double; the hexadecimal text of that decimal has 16
    digits or more and is not padded, and [getAmountBuffer] returns the
    little-endian bytes of the decimal when the number of digits is even,
    and of the decimal divided by 16 when it is odd (the last digit is
    dropped by the decoding). The buffer then has 8 bytes or more. *)
Theorem getAmountBuffer_beyond_64_bits (amount : Z) :
  2 ^ 64 <= amount ->
  2 ^ 63 <= Number_text amount
  /\ getAmountBuffer (Num amount)
     = little_endian (Nat.div2 (hexLength (Number_text amount)))
         (Number_text amount / (if Nat.odd (hexLength (Number_text amount)) then 16 else 1))
  /\ (8 <= List.length (getAmountBuffer (Num amount)))%nat.
Proof.
  intros Ha.
  pose proof (Number_text_large amount 64 ltac:(lia) Ha) as Ht.
  change (64 - 1) with 63 in Ht.
  assert (Hn : (16 <= hexLength (Number_text amount))%nat).
  { apply (hexLength_lower _ 15).
    apply Z.le_trans with (2 ^ 63); [ | exact Ht].
    change (16 ^ Z.of_nat 15) with (2 ^ 60). apply Z.pow_le_mono_r; lia. }
  assert (E : getAmountBuffer (Num amount)
              = little_endian (Nat.div2 (hexLength (Number_text amount)))
                  (Number_text amount
                   / (if Nat.odd (hexLength (Number_text amount)) then 16 else 1))).
  { unfold getAmountBuffer, Math_round, BigNumber_from_number.
    apply unpadded_amount_bytes; [ | exact Hn].
    apply Z.le_trans with (2 ^ 63); [apply Z.pow_nonneg; lia | exact Ht]. }
  split; [exact Ht | split; [exact E | ]].
  rewrite E. unfold little_endian. rewrite length_map, length_seq.
  apply Nat.div2_le_lower_bound. lia.
Qed.

(** The double 2^64 prints as 18446744073709552000, that is 2^64 + 384,
    which takes 17 hexadecimal digits: the last one is dropped, and the 8
    bytes returned encode (2^64 + 384) / 16. *)
Lemma getAmountBuffer_beyond_64_bits_witness :
  Number_text (2 ^ 64) = 18446744073709552000
  /\ getAmountBuffer (Num (2 ^ 64)) = [24; 0; 0; 0; 0; 0; 0; 16].
Proof.
  split; [vm_compute; reflexivity | ].
  rewrite (proj1 (proj2 (getAmountBuffer_beyond_64_bits (2 ^ 64) ltac:(lia)))).
  vm_compute. reflexivity.
Defined.

Lemma Buffer_from_hex_zeros_then_sign (k : nat) (s : string) :
  Buffer_from_hex (repeat_char "0" k ++ String "-" s) = repeat 0 (Nat.div2 k)
  /\ Buffer_from_hex (repeat_char "0" (S k) ++ String "-" s) = repeat 0 (Nat.div2 (S k)).
Proof.
  induction k as [| k [IH0 IH1]].
  - split; [now destruct s | reflexivity].
  - split; [exact IH1 | ].
    cbn [repeat_char append Buffer_from_hex].
    change (hexVal "0") with (Some 0). cbv iota. cbn [Z.mul Z.add].
    cbn [Nat.div2 repeat]. f_equal. exact IH0.
Qed.

(** The bytes made of a negative decimal: the zeros of the padding. *)
Lemma negative_amount_bytes (t : Z) :
  0 < t ->
  rev (Buffer_from_hex (padHexStart (toString16 (Num (- t))) 16))
  = repeat 0 (Nat.div2 (15 - hexLength t)).
Proof.
  intros Ht. unfold toString16.
  destruct (Z.ltb_spec (- t) 0) as [_ | Hpos]; [ | lia].
  rewrite Z.opp_involutive.
  unfold padHexStart, padStart. change (16 =? 0) with false. cbv iota.
  change (16 + Z.rem 16 2) with 16.
  cbn [append String.length].
  rewrite string_of_list_length, hexDigits_length.
  replace (Z.to_nat (16 - Z.of_nat (S (hexLength t))))
    with (15 - hexLength t)%nat by lia.
  rewrite (proj1 (Buffer_from_hex_zeros_then_sign _ _)).
  apply rev_repeat.
Qed.

(** X15. A negative amount is not refused either: its text starts with a
    minus sign, the decoding stops there, and [getAmountBuffer] returns
    fewer than 8 bytes, all of them zero. *)
Theorem getAmountBuffer_negative (amount : Z) :
  amount < 0 ->
  getAmountBuffer (Num amount)
  = repeat 0 (Nat.div2 (15 - hexLength (- amount)))
  /\ (List.length (getAmountBuffer (Num amount)) < 8)%nat.
Proof.
  intros Ha.
  assert (E : getAmountBuffer (Num amount)
              = repeat 0 (Nat.div2 (15 - hexLength (- amount)))).
  { unfold getAmountBuffer, Math_round, BigNumber_from_number.
    replace (Number_text amount) with (- Number_text (- amount))
      by (rewrite Number_text_opp; lia).
    destruct (Z.le_gt_cases (- amount) (2 ^ 53)) as [Hsmall | Hlarge].
    - rewrite (Number_text_small (- amount)) by (rewrite Z.abs_eq; lia).
      apply negative_amount_bytes. lia.
    - pose proof (Number_text_large (- amount) 53 ltac:(lia) ltac:(lia)) as Ht.
      change (53 - 1) with 52 in Ht.
      rewrite negative_amount_bytes by lia.
      assert (H1 : (14 <= hexLength (Number_text (- amount)))%nat)
        by (apply (hexLength_lower _ 13); change (16 ^ Z.of_nat 13) with (2 ^ 52); lia).
      assert (H2 : (14 <= hexLength (- amount))%nat)
        by (apply (hexLength_lower _ 13); change (16 ^ Z.of_nat 13) with (2 ^ 52); lia).
      replace (Nat.div2 (15 - hexLength (Number_text (- amount)))) with 0%nat.
      + replace (Nat.div2 (15 - hexLength (- amount))) with 0%nat; [reflexivity | ].
        symmetry. rewrite Nat.div2_div. apply Nat.div_small. lia.
      + symmetry. rewrite Nat.div2_div. apply Nat.div_small. lia. }
  split; [exact E | ].
  rewrite E, repeat_length.
  rewrite Nat.div2_div. apply Nat.Div0.div_lt_upper_bound. lia.
Qed.

Lemma getAmountBuffer_negative_witness :
  getAmountBuffer (Num (-5)) = [0; 0; 0; 0; 0; 0; 0].
Proof.
  exact (proj1 (getAmountBuffer_negative (-5) ltac:(lia))).
Defined.

(** ** The device key cache *)

(** X16. [getWalletPublicKey] asks the device at most once per call, and not
    at all for a path that is in the cache, whose cached key it returns
    leaving the cache as it is. After any call, asking again for the same
    path returns the same key without a call to the device, whatever the
    address type of the wallet then. *)
Theorem getWalletPublicKey_is_cached
    (D : key_device) (this this' : BitcoinLedgerProvider)
    (ledgerKeyCache : list (string * jsval)) (path : string) :
  (forall key, lookup path ledgerKeyCache = Some key ->
               getWalletPublicKey D this ledgerKeyCache path = (key, ledgerKeyCache, []))
  /\ (List.length (snd (getWalletPublicKey D this ledgerKeyCache path)) <= 1)%nat
  /\ getWalletPublicKey D this'
       (snd (fst (getWalletPublicKey D this ledgerKeyCache path))) path
     = (fst (fst (getWalletPublicKey D this ledgerKeyCache path)),
        snd (fst (getWalletPublicKey D this ledgerKeyCache path)),
        []).
Proof.
  unfold getWalletPublicKey, _getWalletPublicKey, set_prop.
  split; [intros key ->; reflexivity | ].
  destruct (lookup path ledgerKeyCache) as [key | ] eqn:Hown; cbn [fst snd List.length].
  - rewrite Hown. split; [lia | reflexivity].
  - destruct (Object_prototype_member D path) as [member | ] eqn:Hinherited;
      cbn [fst snd List.length].
    + rewrite Hown. split; [lia | reflexivity].
    + cbn [lookup]. rewrite String.eqb_refl. split; [lia | reflexivity].
Qed.

(** X17. The key cache only grows: a call to [getWalletPublicKey] leaves
    every entry of the cache as it was, the entry of the path asked for
    included when there is one, and adds at most the entry of that path,
    holding the device's answer for the path and the format of the wallet
    (p2sh for a p2sh-segwit wallet, the address type itself otherwise). *)
Theorem getWalletPublicKey_never_overwrites
    (D : key_device) (this : BitcoinLedgerProvider)
    (ledgerKeyCache : list (string * jsval)) (path : string) :
  (forall other value,
      lookup other ledgerKeyCache = Some value ->
      lookup other (snd (fst (getWalletPublicKey D this ledgerKeyCache path)))
      = Some value)
  /\ (forall other,
        other <> path ->
        lookup other (snd (fst (getWalletPublicKey D this ledgerKeyCache path)))
        = lookup other ledgerKeyCache)
  /\ (lookup path ledgerKeyCache = None ->
      Object_prototype_member D path = None ->
      getWalletPublicKey D this ledgerKeyCache path
      = (ledger_getWalletPublicKey D path
           (if (addressType this =? "p2sh-segwit")%string then "p2sh" else addressType this),
         (path,
          ledger_getWalletPublicKey D path
            (if (addressType this =? "p2sh-segwit")%string then "p2sh"
             else addressType this)) :: ledgerKeyCache,
         [(path,
           if (addressType this =? "p2sh-segwit")%string then "p2sh"
           else addressType this)])).
Proof.
  unfold getWalletPublicKey, _getWalletPublicKey, set_prop.
  split; [ | split].
  - intros other value Hother.
    destruct (lookup path ledgerKeyCache) as [key | ] eqn:Hown; [exact Hother | ].
    destruct (Object_prototype_member D path); [exact Hother | ].
    cbn [fst snd lookup].
    destruct (String.eqb_spec other path) as [-> | _]; [congruence | exact Hother].
  - intros other Hne.
    destruct (lookup path ledgerKeyCache); [reflexivity | ].
    destruct (Object_prototype_member D path); [reflexivity | ].
    cbn [fst snd lookup]. apply String.eqb_neq in Hne. now rewrite Hne.
  - intros -> ->. reflexivity.
Qed.

(** ** Signing a script input *)

Lemma Buffer_hex_round_trip (b : Buffer) (s : string) :
  Forall is_byte b ->
  Buffer_from_hex (Buffer_toString_hex b ++ s) = (b ++ Buffer_from_hex s)%list.
Proof.
  unfold Buffer_toString_hex. induction 1 as [| x b Hx _ IH]; [reflexivity | ].
  cbn [flat_map app string_of_list_ascii append Buffer_from_hex].
  unfold is_byte in Hx.
  rewrite (hexVal_hexDigit (x / 16))
    by (split; [apply Z.div_pos; lia | apply Z.div_lt_upper_bound; lia]).
  rewrite (hexVal_hexDigit (x mod 16)) by (apply Z.mod_pos_bound; lia).
  rewrite IH. f_equal.
  pose proof (Z.div_mod x 16 ltac:(lia)). lia.
Qed.

Lemma string_append_empty (s : string) : (s ++ "")%string = s.
Proof. induction s as [| c s IH]; cbn; [reflexivity | now rewrite IH]. Qed.

(** X18. [signP2SHTransaction] looks the address up among the first 1000
    addresses of the non-change branch and then of the change branch. When
    it is there, and [vout] is an object, it signs with the derivation path
    of that address, for input [vout.n] and the script in hexadecimal. Of
    the device's answer it returns the first signature, decoded, followed by
    the byte 01 when the input is not segwit; and it sets the input script
    of the transaction when, and only when, the input is not segwit. *)
Theorem signP2SHTransaction_signs_for_the_wallet_address
    (X : externals) (P : script_signer) (this : BitcoinLedgerProvider) (fuel : nat)
    (tx : Transaction P) (rawTx address : string) (props : list (string * jsval))
    (outputScript : Buffer) (segwit : bool) (expiration : Z)
    (walletAddress : Address) (signature : Buffer) (others : list string) :
  (40 <= fuel)%nat ->
  find (fun addr => Address_equals addr address)
       (getAddresses X this 0 1000 false ++ getAddresses X this 0 1000 true)
  = Some walletAddress ->
  Forall is_byte signature ->
  ledger_signP2SHTransaction P
    {| sr_inputTx := splitTransaction X rawTx;
       sr_inputIndex := get_prop (JObject props) "n";
       sr_redeemScriptHex := Buffer_toString_hex outputScript;
       sr_paths := [a_derivationPath walletAddress];
       sr_outputScriptHex :=
         serializeTransactionOutputs X
           (JString (splitTransaction X
                       (toHex P (if segwit then tx
                                 else setInputScript P tx (get_prop (JObject props) "n")
                                        outputScript))));
       sr_lockTime := expiration;
       sr_segwit := segwit |}
  = Buffer_toString_hex signature :: others ->
  signP2SHTransaction X P this fuel tx rawTx address (JObject props) outputScript
    segwit expiration
  = Some (Returns (if segwit then signature else (signature ++ [1])%list,
                   if segwit then tx
                   else setInputScript P tx (get_prop (JObject props) "n") outputScript)).
Proof.
  intros Hfuel Hfind Hbytes Hsig. unfold signP2SHTransaction.
  change 1000 with (Z.of_nat 20 * 50).
  rewrite getWalletAddress_when_batch_divides by lia.
  change (Z.of_nat 20 * 50) with 1000. rewrite Hfind.
  destruct segwit; cbn [negb] in *; rewrite Hsig; do 3 f_equal.
  - rewrite <- (string_append_empty (Buffer_toString_hex signature)).
    rewrite Buffer_hex_round_trip by exact Hbytes. apply app_nil_r.
  - now rewrite Buffer_hex_round_trip by exact Hbytes.
Qed.

Lemma signP2SHTransaction_signs_for_the_wallet_address_witness :
  signP2SHTransaction (example_externals []) example_signer (example_wallet "bech32") 40
    "tx" "raw" "1/3" (JObject [("n", JNumber (Num 1))]) [81; 135] false 0
  = Some (Returns ([48; 69; 1], "tx+script")).
Proof.
  refine (signP2SHTransaction_signs_for_the_wallet_address
            (example_externals []) example_signer (example_wallet "bech32") 40
            "tx" "raw" "1/3" [("n", JNumber (Num 1))] [81; 135] false 0
            (example_Address "1/3" 3 true) [48; 69] [] (le_n 40) _ _ eq_refl).
  - vm_compute. reflexivity.
  - repeat constructor; unfold is_byte; lia.
Defined.

(** X19. When the address is not among the first 1000 addresses of either
    branch, [signP2SHTransaction] throws ADDRESS_MISSING_IN_LEDGER, after at
    most 40 windows of 50 addresses, whatever the transaction and the
    script. *)
Theorem signP2SHTransaction_unknown_address
    (X : externals) (P : script_signer) (this : BitcoinLedgerProvider) (fuel : nat)
    (tx : Transaction P) (rawTx address : string) (vout : jsval)
    (outputScript : Buffer) (segwit : bool) (expiration : Z) :
  (40 <= fuel)%nat ->
  find (fun addr => Address_equals addr address)
       (getAddresses X this 0 1000 false ++ getAddresses X this 0 1000 true)
  = None ->
  signP2SHTransaction X P this fuel tx rawTx address vout outputScript segwit expiration
  = Some (Throws "ADDRESS_MISSING_IN_LEDGER").
Proof.
  intros Hfuel Hfind. unfold signP2SHTransaction.
  change 1000 with (Z.of_nat 20 * 50).
  rewrite getWalletAddress_when_batch_divides by lia.
  change (Z.of_nat 20 * 50) with 1000. now rewrite Hfind.
Qed.

Lemma signP2SHTransaction_unknown_address_witness :
  signP2SHTransaction (example_externals []) example_signer (example_wallet "bech32") 40
    "tx" "raw" "0/1000" (JObject [("n", JNumber (Num 1))]) [81; 135] true 0
  = Some (Throws "ADDRESS_MISSING_IN_LEDGER").
Proof.
  refine (signP2SHTransaction_unknown_address
            (example_externals []) example_signer (example_wallet "bech32") 40
            "tx" "raw" "0/1000" (JObject [("n", JNumber (Num 1))]) [81; 135] true 0
            (le_n 40) _).
  vm_compute. reflexivity.
Defined.

(** ** What [_buildTransaction] hands to the signer *)

Section Signing.

Variable X : externals.
Variable this : BitcoinLedgerProvider.

Lemma payment_requests_bind {A B} (m : M A) (k : A -> M B) :
  payment_requests (trace_of (bind m k))
  = (payment_requests (trace_of m)
     ++ match result_of m with
        | Returns a => payment_requests (trace_of (k a))
        | Throws _ => []
        end)%list.
Proof.
  rewrite trace_bind. destruct (result_of m);
    [apply flat_map_app | now rewrite app_nil_r].
Qed.

Lemma payment_requests_pure {A} (m : M A) :
  pure m -> payment_requests (trace_of m) = [].
Proof. unfold pure. now intros ->. Qed.

Lemma getInputsForAmount_payment_requests (amount feePerByte : jsval) (n : Z) :
  payment_requests (trace_of (getInputsForAmount X this amount feePerByte n)) = [].
Proof.
  rewrite getInputsForAmount_unfold, payment_requests_bind.
  cbn [log trace_of result_of fst snd payment_requests flat_map app].
  rewrite payment_requests_bind.
  rewrite (payment_requests_pure (mapM _ _)) by (apply pure_mapM; auto with js_pure).
  cbn [app].
  destruct (result_of (mapM _ _)) as [upd | e]; [ | reflexivity].
  rewrite payment_requests_bind, fetch_rate_result.
  replace (payment_requests
             (trace_of (if negb (truthy feePerByte)
                        then log EvGetFeePerByte ;;; ret (getFeePerByte X)
                        else ret feePerByte)))
    with (@nil payment_request) by (now destruct (truthy feePerByte)).
  cbn [app]. rewrite payment_requests_bind, getInputs_trace.
  cbn [payment_requests flat_map app].
  destruct (result_of (getInputs X upd (ToNumber amount) (effective_rate X feePerByte)))
    as [r | e]; [ | reflexivity].
  destruct (r_inputs r); [reflexivity | ].
  rewrite payment_requests_bind, getInputs_trace.
  cbn [payment_requests flat_map app].
  destruct (result_of (getInputs X upd _ (effective_rate X feePerByte)))
    as [r' | e']; [ | reflexivity].
  now destruct (r_inputs r').
Qed.

(** The request [_buildTransaction] makes of the signer, for the inputs
    selected and the change address found. *)
Lemma _buildTransaction_run (outputs : jsval)
    (data : option (list (string * jsval))) (feePerByte : jsval) :
  let unused := get_slot (snd (classifyUsedUnused
                                 (getUnspentTransactions X (getAddressList X this 25))
                                 (getAddressList X this 25))) true in
  let request inputs a :=
    {| pr_inputs := getLedgerInputs X inputs;
       pr_paths := map u_derivationPath inputs;
       pr_changePath := a_derivationPath a;
       pr_outputScriptHex := serializeTransactionOutputs X (JObject [("outputs", outputs)]);
       pr_segwit := (addressType this =? "bech32")%string
                    || (addressType this =? "p2sh-segwit")%string;
       pr_additionals := if (addressType this =? "bech32")%string
                         then Some ["bech32"] else None |} in
  let outcome_of (T : Type)
        (k : inputs_result -> list UTXO -> option (list (string * jsval)) -> Address -> T)
        (fail : string -> T) : T :=
    match result_of (getInputsForAmount X this outputs JUndefined 25) with
    | Throws e => fail e
    | Returns r =>
        match r_inputs r with
        | None => fail "TypeError"
        | Some inputs =>
            match result_of (assembleLedgerOutputs X this outputs data
                               (r_amount r) (r_change r) unused) with
            | Throws e => fail e
            | Returns (_, data') =>
                match unused with
                | Addr a => k r inputs data' a
                | _ => fail "TypeError"
                end
            end
        end
    end in
  result_of (_buildTransaction X this outputs data feePerByte)
  = outcome_of _
      (fun _ inputs data' a =>
         Returns (createPaymentTransactionNew X (request inputs a), data'))
      (fun e => Throws e)
  /\ payment_requests (trace_of (_buildTransaction X this outputs data feePerByte))
     = outcome_of _ (fun _ inputs _ a => [request inputs a]) (fun _ => []).
Proof.
  intros unused request outcome_of. unfold outcome_of, _buildTransaction.
  rewrite result_bind, payment_requests_bind, getUnusedAddress_run.
  cbn [trace_of result_of fst snd payment_requests flat_map app]. fold unused.
  rewrite result_bind, payment_requests_bind, getInputsForAmount_payment_requests.
  cbn [app].
  destruct (result_of (getInputsForAmount X this outputs JUndefined 25)) as [r | e];
    [ | now split].
  destruct (r_inputs r) as [inputs | ]; [ | now split].
  rewrite result_bind, payment_requests_bind.
  rewrite (payment_requests_pure _ (pure_assembleLedgerOutputs _ _ _ _ _ _ _)).
  cbn [app].
  destruct (result_of (assembleLedgerOutputs X this outputs data (r_amount r)
                         (r_change r) unused)) as [[ledgerOutputs data'] | e];
    [ | now split].
  destruct unused; now split.
Qed.

End Signing.

(** X20. When [_buildTransaction] returns, the signer was asked exactly
    once. Its inputs and its paths are those of the inputs that coin
    selection returned, in the same order, one path per input; the change
    path is the derivation path of the unused change address; the segwit
    flag is set for bech32 and p2sh-segwit wallets, and the bech32 hint for
    bech32 wallets only; and what is returned is the signer's answer. *)
Theorem _buildTransaction_asks_the_signer_once
    (X : externals) (this : BitcoinLedgerProvider) (outputs : jsval)
    (data : option (list (string * jsval))) (feePerByte : jsval)
    (signed : string) (data' : option (list (string * jsval))) :
  result_of (_buildTransaction X this outputs data feePerByte) = Returns (signed, data') ->
  exists selection inputs changeAddress request,
    result_of (getInputsForAmount X this outputs JUndefined 25) = Returns selection
    /\ r_inputs selection = Some inputs
    /\ result_of (getUnusedAddress X this true 25) = Returns (Addr changeAddress)
    /\ payment_requests (trace_of (_buildTransaction X this outputs data feePerByte))
       = [request]
    /\ signed = createPaymentTransactionNew X request
    /\ pr_inputs request
       = map (fun u => (splitTransaction X (getRawTransaction X (u_txid u)), u_vout u)) inputs
    /\ pr_paths request = map u_derivationPath inputs
    /\ List.length (pr_inputs request) = List.length (pr_paths request)
    /\ pr_changePath request = a_derivationPath changeAddress
    /\ pr_segwit request
       = ((addressType this =? "bech32")%string
          || (addressType this =? "p2sh-segwit")%string)
    /\ pr_additionals request
       = (if (addressType this =? "bech32")%string then Some ["bech32"] else None).
Proof.
  intros Hres.
  destruct (_buildTransaction_run X this outputs data feePerByte) as [Hr Hp].
  cbv zeta in Hr, Hp. rewrite Hres in Hr. rewrite getUnusedAddress_run. cbn [result_of fst].
  destruct (result_of (getInputsForAmount X this outputs JUndefined 25)) as [r | e];
    [ | discriminate].
  destruct (r_inputs r) as [inputs | ] eqn:Hinputs; [ | discriminate].
  destruct (result_of (assembleLedgerOutputs _ _ _ _ _ _ _)) as [[lo d] | e];
    [ | discriminate].
  destruct (get_slot _ true) as [ | | a]; try discriminate.
  injection Hr as -> ->.
  do 4 eexists. split; [reflexivity | ]. split; [exact Hinputs | ].
  split; [reflexivity | ]. split; [exact Hp | ].
  cbn [pr_inputs pr_paths pr_changePath pr_segwit pr_additionals].
  repeat split. unfold getLedgerInputs. now rewrite !length_map.
Qed.

Lemma _buildTransaction_asks_the_signer_once_witness :
  exists request,
    payment_requests
      (trace_of (_buildTransaction (example_externals [example_utxo "t0" "0/0" 100000])
                   (example_wallet "bech32") (JArray [])
                   (Some [("eventName", JString "swap")]) JUndefined))
    = [request]
    /\ pr_inputs request = [("t0", 0)]
    /\ pr_paths request = [Some "84'/0'/0'/0/0"]
    /\ pr_changePath request = "84'/0'/0'/1/0".
Proof.
  destruct (_buildTransaction_asks_the_signer_once
              (example_externals [example_utxo "t0" "0/0" 100000])
              (example_wallet "bech32") (JArray [])
              (Some [("eventName", JString "swap")]) JUndefined
              "" (Some [("eventName", JString "swap")])
              ltac:(vm_compute; reflexivity))
    as (selection & inputs & changeAddress & request & Hsel & Hin & Hch & Hreq & _).
  exists request. split; [exact Hreq | ].
  vm_compute in Hreq. injection Hreq as <-. repeat split.
Defined.

(** X21. When [_buildTransaction] throws, whether because the selection
    failed, the outputs could not be mapped or no change address was found,
    the signer has not been asked for anything. *)
Theorem _buildTransaction_failure_signs_nothing
    (X : externals) (this : BitcoinLedgerProvider) (outputs : jsval)
    (data : option (list (string * jsval))) (feePerByte : jsval) (e : string) :
  result_of (_buildTransaction X this outputs data feePerByte) = Throws e ->
  payment_requests (trace_of (_buildTransaction X this outputs data feePerByte)) = [].
Proof.
  intros Hres.
  destruct (_buildTransaction_run X this outputs data feePerByte) as [Hr Hp].
  cbv zeta in Hr, Hp. rewrite Hres in Hr. rewrite Hp.
  destruct (result_of (getInputsForAmount X this outputs JUndefined 25)) as [r | e'];
    [ | reflexivity].
  destruct (r_inputs r) as [inputs | ]; [ | reflexivity].
  destruct (result_of (assembleLedgerOutputs _ _ _ _ _ _ _)) as [[lo d] | e'];
    [ | reflexivity].
  destruct (get_slot _ true); [reflexivity | reflexivity | discriminate].
Qed.

Lemma _buildTransaction_failure_signs_nothing_witness :
  payment_requests
    (trace_of (_buildTransaction (example_externals [example_utxo "t0" "0/0" 100000])
                 (example_wallet "bech32")
                 (JArray [payment (JString "dest") (JNumber (Num 1000))])
                 None JUndefined))
  = [].
Proof.
  exact (_buildTransaction_failure_signs_nothing
           (example_externals [example_utxo "t0" "0/0" 100000])
           (example_wallet "bech32")
           (JArray [payment (JString "dest") (JNumber (Num 1000))])
           None JUndefined "NOT_ENOUGHT_BALANCE" ltac:(vm_compute; reflexivity)).
Defined.

Lemma assembleLedgerOutputs_data (X : externals) (this : BitcoinLedgerProvider)
    (outputs : jsval) (data : option (list (string * jsval))) (amount : num)
    (change : jsval) (unusedAddress : slot) (ledgerOutputs : list ledger_output)
    (data' : option (list (string * jsval))) :
  result_of (assembleLedgerOutputs X this outputs data amount change unusedAddress)
  = Returns (ledgerOutputs, data') ->
  data' = match data with
          | None => None
          | Some d =>
              Some (if truthy (JNumber amount)
                    then set_prop d "inputAmount" (JNumber amount)
                    else d)
          end.
Proof.
  unfold assembleLedgerOutputs. destruct data as [d | ]; rewrite result_bind;
    destruct (result_of (outputs_map _ _ _ _)) as [mapped | e]; try discriminate;
    cbn [ret result_of fst]; intros [= _ <-]; [ | reflexivity].
  destruct amount as [| z]; [reflexivity | ].
  cbn [truthy]. now destruct (negb (z =? 0)).
Qed.

(** X22. When [_sendTransaction] returns, it returns what the provider
    answers to the broadcast of the signed transaction together with the
    metadata, and the metadata broadcast is the one passed in with its
    [inputAmount] set to the amount that coin selection settled on (the
    target, or the target less the fee after a retry), unless that amount is
    0 or NaN, in which case the metadata is broadcast as passed. *)
Theorem _sendTransaction_broadcasts_the_selected_amount
    (X : externals) (this : BitcoinLedgerProvider) (outputs : jsval)
    (data : option (list (string * jsval))) (feePerByte answer : jsval) :
  result_of (_sendTransaction X this outputs data feePerByte) = Returns answer ->
  exists signed selection,
    result_of (getInputsForAmount X this outputs JUndefined 25) = Returns selection
    /\ result_of (_buildTransaction X this outputs data feePerByte)
       = Returns (signed,
                  match data with
                  | None => None
                  | Some d =>
                      Some (if truthy (JNumber (r_amount selection))
                            then ("inputAmount", JNumber (r_amount selection)) :: d
                            else d)
                  end)
    /\ answer
       = sendRawTransaction X signed
           match data with
           | None => None
           | Some d =>
               Some (if truthy (JNumber (r_amount selection))
                     then ("inputAmount", JNumber (r_amount selection)) :: d
                     else d)
           end.
Proof.
  unfold _sendTransaction. rewrite result_bind.
  destruct (_buildTransaction_run X this outputs data feePerByte) as [Hr _].
  cbv zeta in Hr. rewrite Hr. clear Hr.
  destruct (result_of (getInputsForAmount X this outputs JUndefined 25)) as [r | e];
    [ | discriminate].
  destruct (r_inputs r) as [inputs | ]; [ | discriminate].
  destruct (result_of (assembleLedgerOutputs _ _ _ _ _ _ _)) as [[lo d'] | e] eqn:Hasm;
    [ | discriminate].
  apply assembleLedgerOutputs_data in Hasm. subst d'.
  destruct (get_slot _ true) as [ | | a]; try discriminate.
  cbn [ret result_of fst]. intros [= <-].
  do 2 eexists. split; [reflexivity | ]. split; reflexivity.
Qed.

Lemma _sendTransaction_broadcasts_the_selected_amount_witness :
  exists signed,
    result_of (_buildTransaction
                 (with_coinselect (example_externals [example_utxo "t0" "0/0" 100000])
                    (fun utxos outputs feeRate =>
                       {| cs_inputs := Some utxos;
                          cs_outputs := Some outputs;
                          cs_fee := JNumber (Num 200) |}))
                 (example_wallet "bech32") (JArray [JNumber (Num 700)])
                 (Some [("eventName", JString "swap")]) JUndefined)
    = Returns (signed,
               Some [("inputAmount", JNumber (Num 700)); ("eventName", JString "swap")]).
Proof.
  destruct (_sendTransaction_broadcasts_the_selected_amount
              (with_coinselect (example_externals [example_utxo "t0" "0/0" 100000])
                 (fun utxos outputs feeRate =>
                    {| cs_inputs := Some utxos;
                       cs_outputs := Some outputs;
                       cs_fee := JNumber (Num 200) |}))
              (example_wallet "bech32") (JArray [JNumber (Num 700)])
              (Some [("eventName", JString "swap")]) JUndefined
              _ ltac:(vm_compute; reflexivity))
    as (signed & selection & Hsel & Hbuild & _).
  exists signed. vm_compute in Hsel. injection Hsel as <-. exact Hbuild.
Defined.
